(** * Vocabulary quiz: the session reducer, its handlers and its timers

    A shallow embedding of [src/app/page.tsx].  The page is one React
    component: a reducer ([quizReducer]) over a [QuizState], a handful of
    event handlers that dispatch into it, and five effects that start and
    stop timers.  Each definition below names the source lines it embeds.

    Conventions.
    - JavaScript numbers that hold indices, scores and speed levels are
      integers throughout the program; they are modelled in [Z].  The
      remaining time of the countdown is divided by the speed level.  Module
      [Countdown] reads it in [Q], exactly; for speed levels 1 and 2 every
      value the program computes is an integer and this is what the
      program's IEEE doubles hold, at level 3 it is not (100/3 is rounded).
      Module [Doubles] is the same countdown in binary64 floats, as the
      program computes it.
    - [string | null] and [boolean | null] are [option string] and
      [option bool].
    - Reading [.word] of [state.questions[i]] when [i] is out of range
      throws a [TypeError]; a reducer step that throws is [None]. *)

From Stdlib Require Import ZArith QArith List String Bool Lia.
From Stdlib Require Import Permutation.
Import ListNotations.

Local Open Scope string_scope.
Local Open Scope Z_scope.

(** ** Data model (lines 7-60) *)

Record Question : Type := mkQuestion
  { word : string
  ; meaning : string
  ; example : string
  ; question : string
  ; options : list string }.

Record QuizState : Type := mkQuizState
  { questions : list Question
  ; currentQuestionIndex : Z
  ; userAnswers : list string
  ; score : Z
  ; quizCompleted : bool
  ; currentAnswer : option string
  ; isCorrect : option bool
  ; shuffledOptions : list string
  ; fixedOptions : list string
  ; isPaused : bool
  ; speedLevel : Z
  ; showingAnswer : bool }.

Inductive QuizAction : Type :=
  | SET_QUESTIONS (payload : list Question)
  | ANSWER_QUESTION (payload : string)
  | NEXT_QUESTION
  | RESET_QUIZ
  | SET_CURRENT_ANSWER (payload : string)
  | CHECK_ANSWER
  | SHUFFLE_OPTIONS (payload : list string)
  | SET_FIXED_OPTIONS (payload : list string)
  | TOGGLE_PAUSE
  | SET_SPEED_LEVEL (payload : Z)
  | SET_SHOWING_ANSWER (payload : bool).

Definition initialState : QuizState :=
  {| questions := []
   ; currentQuestionIndex := 0
   ; userAnswers := []
   ; score := 0
   ; quizCompleted := false
   ; currentAnswer := None
   ; isCorrect := None
   ; shuffledOptions := []
   ; fixedOptions := []
   ; isPaused := false
   ; speedLevel := 1
   ; showingAnswer := false |}.

(** [arr[i]] of JavaScript: [undefined] outside [0 .. length-1]. *)
Definition index {A : Type} (arr : list A) (i : Z) : option A :=
  if i <? 0 then None else nth_error arr (Z.to_nat i).

(** [state.questions[state.currentQuestionIndex]] (line 138). *)
Definition currentQuestion (state : QuizState) : option Question :=
  index (questions state) (currentQuestionIndex state).

(** [a === b] on two values of type [string | null]. *)
Definition answer_eqb (a b : option string) : bool :=
  match a, b with
  | Some x, Some y => String.eqb x y
  | None, None => true
  | _, _ => false
  end.

(** ** The reducer (lines 62-110) *)

Module Reducer.

(** Functional update of one field, as the object spread [{...state, f: v}]. *)
Definition set_questions (v : list Question) (s : QuizState) : QuizState :=
  mkQuizState v (currentQuestionIndex s) (userAnswers s) (score s)
    (quizCompleted s) (currentAnswer s) (isCorrect s) (shuffledOptions s)
    (fixedOptions s) (isPaused s) (speedLevel s) (showingAnswer s).

Definition set_isCorrect (v : option bool) (s : QuizState) : QuizState :=
  mkQuizState (questions s) (currentQuestionIndex s) (userAnswers s) (score s)
    (quizCompleted s) (currentAnswer s) v (shuffledOptions s)
    (fixedOptions s) (isPaused s) (speedLevel s) (showingAnswer s).

Definition set_shuffledOptions (v : list string) (s : QuizState) : QuizState :=
  mkQuizState (questions s) (currentQuestionIndex s) (userAnswers s) (score s)
    (quizCompleted s) (currentAnswer s) (isCorrect s) v
    (fixedOptions s) (isPaused s) (speedLevel s) (showingAnswer s).

Definition set_fixedOptions (v : list string) (s : QuizState) : QuizState :=
  mkQuizState (questions s) (currentQuestionIndex s) (userAnswers s) (score s)
    (quizCompleted s) (currentAnswer s) (isCorrect s) (shuffledOptions s)
    v (isPaused s) (speedLevel s) (showingAnswer s).

Definition set_isPaused (v : bool) (s : QuizState) : QuizState :=
  mkQuizState (questions s) (currentQuestionIndex s) (userAnswers s) (score s)
    (quizCompleted s) (currentAnswer s) (isCorrect s) (shuffledOptions s)
    (fixedOptions s) v (speedLevel s) (showingAnswer s).

Definition set_speedLevel (v : Z) (s : QuizState) : QuizState :=
  mkQuizState (questions s) (currentQuestionIndex s) (userAnswers s) (score s)
    (quizCompleted s) (currentAnswer s) (isCorrect s) (shuffledOptions s)
    (fixedOptions s) (isPaused s) v (showingAnswer s).

Definition set_showingAnswer (v : bool) (s : QuizState) : QuizState :=
  mkQuizState (questions s) (currentQuestionIndex s) (userAnswers s) (score s)
    (quizCompleted s) (currentAnswer s) (isCorrect s) (shuffledOptions s)
    (fixedOptions s) (isPaused s) (speedLevel s) v.

Definition quizReducer (state : QuizState) (action : QuizAction)
  : option QuizState :=
  match action with
  | SET_QUESTIONS payload =>
      Some (set_questions payload initialState)
  | ANSWER_QUESTION payload =>
      match currentQuestion state with
      | None => None
      | Some q =>
          Some (mkQuizState (questions state) (currentQuestionIndex state)
                  (userAnswers state ++ [payload])
                  (if String.eqb payload (word q)
                   then score state + 1 else score state)
                  (quizCompleted state) (currentAnswer state)
                  (isCorrect state) (shuffledOptions state)
                  (fixedOptions state) (isPaused state) (speedLevel state)
                  (showingAnswer state))
      end
  | SET_CURRENT_ANSWER payload =>
      Some (mkQuizState (questions state) (currentQuestionIndex state)
              (userAnswers state) (score state) (quizCompleted state)
              (Some payload) (isCorrect state) (shuffledOptions state)
              (fixedOptions state) (isPaused state) (speedLevel state)
              true)
  | CHECK_ANSWER =>
      match currentQuestion state with
      | None => None
      | Some q =>
          Some (set_isCorrect
                  (Some (answer_eqb (currentAnswer state) (Some (word q))))
                  state)
      end
  | NEXT_QUESTION =>
      Some (mkQuizState (questions state) (currentQuestionIndex state + 1)
              (userAnswers state) (score state)
              (currentQuestionIndex state
                 =? Z.of_nat (List.length (questions state)) - 1)
              None None (shuffledOptions state) [] (isPaused state)
              (speedLevel state) false)
  | RESET_QUIZ =>
      Some (set_questions (questions state) initialState)
  | SHUFFLE_OPTIONS payload => Some (set_shuffledOptions payload state)
  | SET_FIXED_OPTIONS payload => Some (set_fixedOptions payload state)
  | TOGGLE_PAUSE => Some (set_isPaused (negb (isPaused state)) state)
  | SET_SPEED_LEVEL payload => Some (set_speedLevel payload state)
  | SET_SHOWING_ANSWER payload => Some (set_showingAnswer payload state)
  end.

(** Several [dispatch] calls of one handler, applied in order. *)
Fixpoint dispatchAll (state : QuizState) (actions : list QuizAction)
  : option QuizState :=
  match actions with
  | [] => Some state
  | a :: rest =>
      match quizReducer state a with
      | None => None
      | Some state' => dispatchAll state' rest
      end
  end.

End Reducer.

(** ** Event handlers (lines 120-136, 242-268) *)

Module Handlers.
Import Reducer.

(** The dispatch of [handleFileUpload] once the file is parsed (line 129). *)
Definition load (qs : list Question) (state : QuizState) : option QuizState :=
  quizReducer state (SET_QUESTIONS qs).

(** [handleAnswer] (lines 242-246): two dispatches, nothing else touches the
    session. *)
Definition handleAnswer (answer : string) (state : QuizState)
  : option QuizState :=
  dispatchAll state [SET_CURRENT_ANSWER answer; CHECK_ANSWER].

Definition resetQuiz (state : QuizState) : option QuizState :=
  quizReducer state RESET_QUIZ.

Definition togglePause (state : QuizState) : option QuizState :=
  quizReducer state TOGGLE_PAUSE.

(** [toggleSpeedLevel] (lines 259-262); [%] of JavaScript is [Z.rem]. *)
Definition toggleSpeedLevel (state : QuizState) : option QuizState :=
  let nextLevel := Z.rem (speedLevel state) 3 + 1 in
  quizReducer state (SET_SPEED_LEVEL nextLevel).

(** [handleNextQuestion] (lines 265-268), its effect on the session. *)
Definition handleNextQuestion (state : QuizState) : option QuizState :=
  quizReducer state NEXT_QUESTION.

(** The option buttons carry [disabled={state.currentAnswer !== null}]
    (line 391) and are rendered only while the quiz is not completed
    (line 375): a click on a disabled or absent button does nothing. *)
Definition clickOption (opt : string) (state : QuizState)
  : option QuizState :=
  if quizCompleted state then Some state
  else match currentAnswer state with
       | Some _ => Some state
       | None => handleAnswer opt state
       end.

(** The skip button carries [disabled={state.quizCompleted}] (line 366). *)
Definition clickNext (state : QuizState) : option QuizState :=
  if quizCompleted state then Some state else handleNextQuestion state.

End Handlers.

(** ** The session as a transition system *)

Module Session.
Import Reducer Handlers.

(** The public operations of the session, and the two dispatches that the
    effects of lines 151-157 and 183-191 make on their own. *)
Inductive Transition : Type :=
  | Load (qs : list Question)
  | SelectAnswer (value : string)
  | Advance
  | TogglePause
  | SetSpeedLevel
  | Reset
  | FixOptions (opts : list string)
  | Synthesize (qs : list Question).

Definition apply (tr : Transition) (state : QuizState) : option QuizState :=
  match tr with
  | Load qs => load qs state
  | SelectAnswer value => handleAnswer value state
  | Advance => handleNextQuestion state
  | TogglePause => togglePause state
  | SetSpeedLevel => toggleSpeedLevel state
  | Reset => resetQuiz state
  | FixOptions opts => quizReducer state (SET_FIXED_OPTIONS opts)
  | Synthesize qs => quizReducer state (SET_QUESTIONS qs)
  end.

Inductive reachable : QuizState -> Prop :=
  | reachable_initial : reachable initialState
  | reachable_apply : forall tr state state',
      reachable state -> apply tr state = Some state' -> reachable state'.

(** [selectedAnswer <> None <-> isCorrect <> None]. *)
Definition answerInvariant (state : QuizState) : Prop :=
  currentAnswer state <> None <-> isCorrect state <> None.

End Session.

(** ** Option synthesis (lines 183-191 and 271-280) *)

Module Synthesis.
Import Reducer.

(** [f] applied to every element with its position, as [Array.map] does. *)
Fixpoint mapFrom {A B : Type} (i : nat) (f : nat -> A -> B) (l : list A)
  : list B :=
  match l with
  | [] => []
  | x :: rest => f i x :: mapFrom (S i) f rest
  end.

Definition withOptions (opts : list string) (q : Question) : Question :=
  mkQuestion (word q) (meaning q) (example q) (question q) opts.

(** The words of the questions whose word differs from [correctAnswer]
    (lines 275-277). *)
Definition otherWords (correctAnswer : string) (allQuestions : list Question)
  : list string :=
  map word
    (filter (fun q => negb (String.eqb (word q) correctAnswer)) allQuestions).

Section RandomSource.

(** [sortRandom n l] is the order in which the [n]-th call of
    [otherWords.sort(() => 0.5 - Math.random())] leaves [l] (line 278). *)
Variable sortRandom : nat -> list string -> list string.

(** [generateRandomOptions] (lines 271-280); [n] numbers the call. *)
Definition generateRandomOptions (n : nat) (correctAnswer : string)
    (allQuestions : list Question) : list string :=
  let shuffled := sortRandom n (otherWords correctAnswer allQuestions) in
  firstn 3 shuffled.

(** The options built for one question (line 187). *)
Definition synthesizedOptions (n : nat) (q : Question)
    (allQuestions : list Question) : list string :=
  word q :: generateRandomOptions n (word q) allQuestions.

(** [newQuestions] (lines 185-188): every question of the list is rebuilt,
    whatever its own options were. *)
Definition synthesizeQuestions (allQuestions : list Question)
  : list Question :=
  mapFrom 0
    (fun n q => withOptions (synthesizedOptions n q allQuestions) q)
    allQuestions.

(** The effect of lines 183-191: the action it dispatches, if any. *)
Definition synthesisEffect (state : QuizState) : option QuizAction :=
  match currentQuestion state with
  | Some q =>
      match options q with
      | [] => Some (SET_QUESTIONS (synthesizeQuestions (questions state)))
      | _ :: _ => None
      end
  | None => None
  end.

(** The session after the effect has run. *)
Definition afterSynthesis (state : QuizState) : option QuizState :=
  match synthesisEffect state with
  | Some action => quizReducer state action
  | None => Some state
  end.

End RandomSource.

End Synthesis.

(** ** The answering countdown (lines 116, 151-180) *)

Module Countdown.
Import Reducer Handlers.

Local Open Scope Q_scope.

(** The period of [setInterval] (line 171), in milliseconds. *)
Definition tickPeriod : Z := 100%Z.

(** [useState(5000)] (line 116) and [setRemainingTime(5000)] (line 155). *)
Definition fullTime : Q := 5000.

(** The component state the countdown reads and writes. *)
Record Countdown : Type := mkCountdown
  { session : QuizState
  ; remainingTime : Q }.

(** The guard of the effect (line 161): an interval runs exactly while it
    holds, since every change of its operands re-runs the effect and the
    cleanup clears the previous interval. *)
Definition countdownRunning (state : QuizState) : bool :=
  match currentQuestion state with
  | Some _ =>
      negb (isPaused state)
      && match currentAnswer state with None => true | Some _ => false end
  | None => false
  end.

(** [100 / ((state.speedLevel * 5) / 5)] (line 169), read exactly.  At
    levels 1 and 2 this is the program's value (100 and 50); at level 3 the
    program holds the double nearest to 100/3, and at level 0, which no
    session reaches, it holds [Infinity] where [Q] gives 0:
    [Doubles.decrement] is the value in doubles. *)
Definition decrement (level : Z) : Q :=
  100 / ((inject_Z level * 5) / 5).

(** The updater passed to [setRemainingTime] (lines 163-170): the new
    remaining time, and whether [handleAnswer(currentQuestion.word)] ran. *)
Definition countdownUpdater (level : Z) (prevTime : Q) : Q * bool :=
  if Qle_bool prevTime 100 then (0, true)
  else (prevTime - decrement level, false).

(** One firing of the interval callback. *)
Definition intervalTick (c : Countdown) : option Countdown :=
  match currentQuestion (session c) with
  | Some q =>
      if countdownRunning (session c) then
        let (time, timedOut) :=
          countdownUpdater (speedLevel (session c)) (remainingTime c) in
        if timedOut then
          match handleAnswer (word q) (session c) with
          | Some state' => Some (mkCountdown state' time)
          | None => None
          end
        else Some (mkCountdown (session c) time)
      else Some c
  | None => Some c
  end.

(** The number of interval callbacks up to and including the one that times
    out, for a countdown left alone at one speed level, with the exact
    updater: the program's count where the remaining times are integers
    (levels 1 and 2 from 5000); [Doubles.ticksUntilTimeout] counts in
    doubles. *)
Fixpoint ticksUntilTimeout (fuel : nat) (level : Z) (time : Q) : option nat :=
  match fuel with
  | O => None
  | S fuel' =>
      let (time', timedOut) := countdownUpdater level time in
      if timedOut then Some 1%nat
      else match ticksUntilTimeout fuel' level time' with
           | Some n => Some (S n)
           | None => None
           end
  end.

Section Shuffle.

(** The result of [shuffleArray] (lines 141-148) on a list. *)
Variable shuffleArray : list string -> list string.

(** The effect of lines 151-157, run when the current question changes. *)
Definition questionEffect (c : Countdown) : option Countdown :=
  match currentQuestion (session c) with
  | Some q =>
      match options q with
      | [] => Some c
      | _ :: _ =>
          match quizReducer (session c)
                  (SET_FIXED_OPTIONS (shuffleArray (options q))) with
          | Some state' => Some (mkCountdown state' fullTime)
          | None => None
          end
      end
  | None => Some c
  end.

End Shuffle.


End Countdown.

(** ** The reveal timers (lines 117, 193-239, 264-268) *)

Module Reveal.
Import Reducer Handlers.

(** The delay of both [setTimeout] calls (lines 207 and 232). *)
Definition revealDelay : Z := 5000.

(** The session together with the browser's pending timeouts.  Every
    pending timeout of the component dispatches [NEXT_QUESTION]; it is kept
    as its identifier and the time left before it is due.  [revealCleanup]
    and [pauseCleanup] are the timeouts that the cleanup functions returned
    by the effects of lines 194-219 and 222-239 will clear. *)
Record Timers : Type := mkTimers
  { session : QuizState
  ; loaded : bool
  ; answerTimer : option nat
  ; pending : list (nat * Z)
  ; revealCleanup : option nat
  ; pauseCleanup : option nat
  ; nextId : nat }.

Definition mounted : Timers :=
  {| session := initialState
   ; loaded := false
   ; answerTimer := None
   ; pending := []
   ; revealCleanup := None
   ; pauseCleanup := None
   ; nextId := 1 |}.

(** [if (id) clearTimeout(id)]. *)
Definition clearTimeout (id : option nat) (l : list (nat * Z))
  : list (nat * Z) :=
  match id with
  | Some i => filter (fun p => negb (Nat.eqb (fst p) i)) l
  | None => l
  end.

Definition answered (state : QuizState) : bool :=
  match currentAnswer state with Some _ => true | None => false end.

(** Whether the dependency array of line 214-219 is unchanged. *)
Definition sameRevealDeps (prev next : QuizState) : bool :=
  answer_eqb (currentAnswer prev) (currentAnswer next)
  && Bool.eqb (quizCompleted prev) (quizCompleted next)
  && Bool.eqb (showingAnswer prev) (showingAnswer next)
  && Bool.eqb (isPaused prev) (isPaused next).

(** Whether the dependency array of line 239 is unchanged. *)
Definition samePauseDeps (prev next : QuizState) : bool :=
  Bool.eqb (isPaused prev) (isPaused next).

(** The body of the effect of lines 194-219; [seen] is the [answerTimer]
    of the render the effect belongs to. *)
Definition revealEffect (seen : option nat) (t : Timers) : Timers :=
  let state := session t in
  if answered state && negb (quizCompleted state) && showingAnswer state then
    let cleared := clearTimeout seen (pending t) in
    if negb (isPaused state) then
      let id := nextId t in
      mkTimers state (loaded t) (Some id) (cleared ++ [(id, revealDelay)])
        (Some id) (pauseCleanup t) (S id)
    else
      mkTimers state (loaded t) (answerTimer t) cleared
        None (pauseCleanup t) (nextId t)
  else
    mkTimers state (loaded t) (answerTimer t) (pending t)
      None (pauseCleanup t) (nextId t).

(** The body of the effect of lines 222-239. *)
Definition pauseEffect (seen : option nat) (t : Timers) : Timers :=
  let state := session t in
  if answered state && showingAnswer state then
    if isPaused state then
      mkTimers state (loaded t) (answerTimer t) (clearTimeout seen (pending t))
        (revealCleanup t) None (nextId t)
    else
      let id := nextId t in
      mkTimers state (loaded t) (Some id) (pending t ++ [(id, revealDelay)])
        (revealCleanup t) (Some id) (S id)
  else
    mkTimers state (loaded t) (answerTimer t) (pending t)
      (revealCleanup t) None (nextId t).

(** The cleanups of the effects whose dependencies changed. *)
Definition runCleanups (prev : QuizState) (t : Timers) : Timers :=
  let p1 := if sameRevealDeps prev (session t) then pending t
            else clearTimeout (revealCleanup t) (pending t) in
  let p2 := if samePauseDeps prev (session t) then p1
            else clearTimeout (pauseCleanup t) p1 in
  mkTimers (session t) (loaded t) (answerTimer t) p2
    (revealCleanup t) (pauseCleanup t) (nextId t).

(** What React does after a render that replaced session [prev]: the
    cleanups of the effects whose dependencies changed, then their bodies in
    the order of the source. *)
Definition commit (prev : QuizState) (t : Timers) : Timers :=
  let seen := answerTimer t in
  let t1 := runCleanups prev t in
  let t2 := if sameRevealDeps prev (session t) then t1
            else revealEffect seen t1 in
  if samePauseDeps prev (session t) then t2 else pauseEffect seen t2.

Definition withSession (state : QuizState) (t : Timers) : Timers :=
  mkTimers state (loaded t) (answerTimer t) (pending t)
    (revealCleanup t) (pauseCleanup t) (nextId t).

Definition withPending (l : list (nat * Z)) (t : Timers) : Timers :=
  mkTimers (session t) (loaded t) (answerTimer t) l
    (revealCleanup t) (pauseCleanup t) (nextId t).

(** A handler's dispatches followed by the render they cause. *)
Definition dispatching (handler : QuizState -> option QuizState) (t : Timers)
  : option Timers :=
  match handler (session t) with
  | Some state' => Some (commit (session t) (withSession state' t))
  | None => None
  end.

(** What the user and the browser can do to the mounted component. *)
Inductive Event : Type :=
  | Upload (qs : list Question)          (* a dataset is read, line 129 *)
  | Synthesized (qs : list Question)     (* the dispatch of line 189 *)
  | OptionsFixed (opts : list string)    (* the dispatch of line 154 *)
  | ClickOption (opt : string)           (* an option button, line 390 *)
  | CountdownTimeout                     (* the call of line 166 *)
  | ClickNext                            (* the skip button, line 365 *)
  | ClickPause                           (* line 358 *)
  | ClickSpeed                           (* line 345 *)
  | ClickRestart                         (* line 453 *)
  | Elapse (d : Z)                       (* [d] milliseconds go by *)
  | Fire (id : nat).                     (* a due timeout runs *)

Definition isDue (id : nat) (p : nat * Z) : bool :=
  Nat.eqb (fst p) id && (snd p <=? 0).

(** [step e t] is [None] when [e] cannot happen in [t] or when the reducer
    throws.  A timeout that runs leaves the pending list and dispatches
    [NEXT_QUESTION] (lines 205-207, 230-232); time cannot go past a due
    timeout. *)
Definition step (e : Event) (t : Timers) : option Timers :=
  match e with
  | Upload qs =>
      if loaded t then None
      else dispatching (load qs)
             (mkTimers (session t) true (answerTimer t) (pending t)
                (revealCleanup t) (pauseCleanup t) (nextId t))
  | Synthesized qs =>
      match currentQuestion (session t) with
      | Some q =>
          match options q with
          | [] => dispatching (fun s => quizReducer s (SET_QUESTIONS qs)) t
          | _ :: _ => None
          end
      | None => None
      end
  | OptionsFixed opts =>
      match currentQuestion (session t) with
      | Some q =>
          match options q with
          | [] => None
          | _ :: _ =>
              dispatching (fun s => quizReducer s (SET_FIXED_OPTIONS opts)) t
          end
      | None => None
      end
  | ClickOption opt =>
      if loaded t then dispatching (clickOption opt) t else None
  | CountdownTimeout =>
      match currentQuestion (session t) with
      | Some q =>
          if negb (isPaused (session t)) && negb (answered (session t))
          then dispatching (handleAnswer (word q)) t
          else None
      | None => None
      end
  | ClickNext =>
      if loaded t then
        if quizCompleted (session t) then Some t
        else dispatching handleNextQuestion
               (withPending (clearTimeout (answerTimer t) (pending t)) t)
      else None
  | ClickPause => if loaded t then dispatching togglePause t else None
  | ClickSpeed => if loaded t then dispatching toggleSpeedLevel t else None
  | ClickRestart =>
      if loaded t && quizCompleted (session t)
      then dispatching resetQuiz t else None
  | Elapse d =>
      if (0 <=? d) && forallb (fun p => d <=? snd p) (pending t)
      then Some (withPending (map (fun p => (fst p, snd p - d)) (pending t)) t)
      else None
  | Fire id =>
      if existsb (isDue id) (pending t)
      then dispatching (fun s => quizReducer s NEXT_QUESTION)
             (withPending (clearTimeout (Some id) (pending t)) t)
      else None
  end.

(** A sequence of events, left to right. *)
Fixpoint run (es : list Event) (t : Timers) : option Timers :=
  match es with
  | [] => Some t
  | e :: rest =>
      match step e t with
      | Some t' => run rest t'
      | None => None
      end
  end.

Inductive reachable : Timers -> Prop :=
  | reachable_mounted : reachable mounted
  | reachable_step : forall e t t',
      reachable t -> step e t = Some t' -> reachable t'.

(** The reveal phase: an answer is selected and the quiz is not completed. *)
Definition revealPhase (state : QuizState) : bool :=
  answered state && negb (quizCompleted state).

(** Every pending timeout is one that an effect cleanup will clear. *)
Definition owned (t : Timers) : Prop :=
  forall id d, In (id, d) (pending t) ->
    revealCleanup t = Some id \/ pauseCleanup t = Some id.

(** No timeout is pending while the session is paused. *)
Definition quietWhilePaused (t : Timers) : Prop :=
  isPaused (session t) = true -> pending t = [].

(** [showingAnswer] is set whenever an answer is selected. *)
Definition shownOnceAnswered (state : QuizState) : Prop :=
  answered state = true -> showingAnswer state = true.

(** Nothing happens to the component before a dataset is read. *)
Definition untouchedUntilLoaded (t : Timers) : Prop :=
  loaded t = false -> t = mounted.

Definition wellFormed (t : Timers) : Prop :=
  owned t /\ quietWhilePaused t /\ shownOnceAnswered (session t)
  /\ untouchedUntilLoaded t.

End Reveal.

(** ** Sample data *)

Module Samples.
Import Reducer Handlers.

Definition cat : Question :=
  mkQuestion "cat" "a small pet" "The cat sleeps." "Which one purrs?"
    ["cat"; "dog"; "cow"; "hen"].

Definition dog : Question :=
  mkQuestion "dog" "a loyal pet" "The dog barks." "Which one barks?"
    ["dog"; "cat"; "cow"; "hen"].

(** A second entry for the word of [cat], and entries without options. *)
Definition cat' : Question :=
  mkQuestion "cat" "a big cat" "The cat roars." "Which one roars?" [].

Definition bareCat : Question := mkQuestion "cat" "" "" "" [].
Definition bareDog : Question := mkQuestion "dog" "" "" "" [].
Definition bareCow : Question := mkQuestion "cow" "" "" "" [].
Definition bareHen : Question := mkQuestion "hen" "" "" "" [].
Definition bareFox : Question := mkQuestion "fox" "" "" "" [].

(** The session right after [questions] was loaded. *)
Definition loadedWith (qs : list Question) : QuizState :=
  set_questions qs initialState.

(** [cat] answered with its own word. *)
Definition answeredCat : QuizState :=
  mkQuizState [cat; dog] 0 [] 0 false (Some "cat") (Some true) []
    ["cat"; "dog"; "cow"; "hen"] false 1 true.

(** The one-question quiz after its question was passed. *)
Definition completedCat : QuizState :=
  mkQuizState [cat] 1 [] 0 true None None [] [] false 1 false.

(** Half-way through a quiz whose second question has no options. *)
Definition midQuiz : QuizState :=
  mkQuizState [cat; bareDog] 1 [] 0 false None None [] [] true 2 false.

Definition fiveBare : list Question :=
  [bareCat; bareDog; bareCow; bareHen; bareFox].

(** [cat] answered 2000 units ago, its reveal timeout still pending. *)
Definition revealingCat : Reveal.Timers :=
  Reveal.mkTimers
    (mkQuizState [cat; dog] 0 [] 0 false (Some "cat") (Some true) [] []
       false 1 true)
    true (Some 1%nat) [(1%nat, 3000)] (Some 1%nat) None 2.

(** One question, answered, then paused and resumed, then left alone until
    the timeouts run. *)
Definition pauseResumeWait : list Reveal.Event :=
  [Reveal.Upload [cat]; Reveal.ClickOption "cat"; Reveal.ClickPause;
   Reveal.ClickPause; Reveal.Elapse 5000; Reveal.Fire 2; Reveal.Fire 3].

End Samples.

(** ** Shuffling (lines 140-148) *)

Module Shuffle.

(** [arr[i] = x] for [i] within the array. *)
Fixpoint update {A : Type} (arr : list A) (i : nat) (x : A) : list A :=
  match arr, i with
  | [], _ => []
  | _ :: rest, O => x :: rest
  | y :: rest, S i' => y :: update rest i' x
  end.

(** [[arr[i], arr[j]] = [arr[j], arr[i]]] (line 145): both elements are
    read, then [arr[i]] and [arr[j]] are written in that order.  The loop
    only uses positions of the array. *)
Definition swap {A : Type} (arr : list A) (i j : nat) : list A :=
  match nth_error arr i, nth_error arr j with
  | Some x, Some y => update (update arr i y) j x
  | _, _ => arr
  end.

Section RandomDraws.

(** [draw i] stands for the random number behind
    [Math.floor(Math.random() * (i + 1))] (line 144), an integer of
    [0 .. i]: the position picked is [draw i mod (i + 1)]. *)
Variable draw : nat -> nat.

Definition pick (i : nat) : nat := Nat.modulo (draw i) (S i).

(** The loop of lines 143-146, from [i] down to 1. *)
Fixpoint shuffleLoop {A : Type} (i : nat) (shuffled : list A) : list A :=
  match i with
  | O => shuffled
  | S i' => shuffleLoop i' (swap shuffled i (pick i))
  end.

(** [shuffleArray] (lines 141-148). *)
Definition shuffleArray {A : Type} (array : list A) : list A :=
  shuffleLoop (List.length array - 1) array.

End RandomDraws.

End Shuffle.

(** ** The countdown in doubles (lines 116, 163-170) *)

From Stdlib Require Import PrimFloat.

Module Doubles.

Local Open Scope float_scope.

(** The double that holds a small integer. *)
Fixpoint ofPositive (p : positive) : float :=
  match p with
  | xH => 1
  | xO p' => 2 * ofPositive p'
  | xI p' => 2 * ofPositive p' + 1
  end.

Definition ofZ (z : Z) : float :=
  match z with
  | Z0 => 0
  | Zpos p => ofPositive p
  | Zneg p => - ofPositive p
  end.

(** [useState(5000)] (line 116) and [setRemainingTime(5000)] (line 155). *)
Definition fullTime : float := 5000.

(** [100 / ((state.speedLevel * 5) / 5)] (line 169). *)
Definition decrement (level : Z) : float :=
  100 / ((ofZ level * 5) / 5).

(** The updater passed to [setRemainingTime] (lines 163-170). *)
Definition countdownUpdater (level : Z) (prevTime : float) : float * bool :=
  if PrimFloat.leb prevTime 100 then (0, true)
  else (prevTime - decrement level, false).

(** The number of interval callbacks up to and including the one that times
    out, for a countdown left alone at one speed level. *)
Fixpoint ticksUntilTimeout (fuel : nat) (level : Z) (time : float)
  : option nat :=
  match fuel with
  | O => None
  | S fuel' =>
      let (time', timedOut) := countdownUpdater level time in
      if timedOut then Some 1%nat
      else match ticksUntilTimeout fuel' level time' with
           | Some n => Some (S n)
           | None => None
           end
  end.

(** The remaining time after [n] callbacks. *)
Fixpoint remainingAfter (n : nat) (level : Z) (time : float) : float :=
  match n with
  | O => time
  | S n' => remainingAfter n' level (fst (countdownUpdater level time))
  end.

End Doubles.

(** ** What the page shows (lines 375-448) *)

Module View.

(** The four colour classes of an option button (lines 392-402). *)
Inductive ButtonStyle : Type := Blue | Green | Red | Gray.

(** A value of type [boolean | null] used as a condition. *)
Definition truthy (b : option bool) : bool :=
  match b with Some true => true | _ => false end.

(** The class expression of lines 392-402 for the button of [opt]. *)
Definition optionStyle (state : QuizState) (current : Question)
    (opt : string) : ButtonStyle :=
  match currentAnswer state with
  | None => Blue
  | Some answer =>
      if String.eqb answer opt then
        if truthy (isCorrect state) then Green else Red
      else if String.eqb opt (word current) && negb (truthy (isCorrect state))
           then Green
           else Gray
  end.

Record Button : Type := mkButton
  { label : string
  ; style : ButtonStyle
  ; disabled : bool }.

(** The result panel (lines 409-437): whether it is the green one, and the
    word and meaning it prints. *)
Record ResultPanel : Type := mkResultPanel
  { praised : bool
  ; shownWord : string
  ; shownMeaning : string }.

Inductive Screen : Type :=
  | QuizScreen (text : string) (buttons : list Button)
      (result : option ResultPanel)
  | CompletedScreen (finalScore : Z) (total : Z).

(** The condition of line 409: a verdict or an answer is there. *)
Definition resultShown (state : QuizState) : bool :=
  match isCorrect state, currentAnswer state with
  | None, None => false
  | _, _ => true
  end.

Section RegExp.

(** [patternCompiles answer] tells whether [new RegExp(`(${answer})`, "gi")]
    (line 284) accepts its pattern; when it does not, the constructor
    throws. *)
Variable patternCompiles : string -> bool.

(** The [main] element (lines 374-449), without the progress bar and
    without the text of the highlighted example.  The result is [None]
    when building it throws: reading [currentQuestion.question] with no
    current question (line 384), or [highlightAnswer] called for the result
    panel with a word that is not a pattern (lines 432-435). *)
Definition mainView (state : QuizState) : option Screen :=
  if negb (quizCompleted state) then
    match currentQuestion state with
    | None => None
    | Some current =>
        if resultShown state && negb (patternCompiles (word current))
        then None
        else
          Some (QuizScreen (question current)
                  (map (fun opt =>
                          mkButton opt (optionStyle state current opt)
                            (match currentAnswer state with
                             | Some _ => true
                             | None => false
                             end))
                     (fixedOptions state))
                  (if resultShown state
                   then Some (mkResultPanel (truthy (isCorrect state))
                                (word current) (meaning current))
                   else None))
    end
  else
    Some (CompletedScreen (score state)
            (Z.of_nat (List.length (questions state)))).

End RegExp.

End View.

(** ** Invariants of the reachable sessions and components *)

Module Invariants.
Import Reducer Handlers.

(** The number of answers that are the word of the question at the same
    position. *)
Fixpoint correctCount (answers : list string) (qs : list Question) : Z :=
  match answers, qs with
  | a :: answers', q :: qs' =>
      (if String.eqb a (word q) then 1 else 0) + correctCount answers' qs'
  | _, _ => 0
  end.

(** One answer is recorded per question passed, and the score counts the
    right ones. *)
Definition tallied (state : QuizState) : Prop :=
  Z.of_nat (List.length (userAnswers state)) = currentQuestionIndex state
  /\ score state = correctCount (userAnswers state) (questions state).

(** What [ANSWER_QUESTION] followed by [NEXT_QUESTION] makes of a session. *)
Definition answerAndAdvance (value : string) (state : QuizState)
  : option QuizState :=
  dispatchAll state [ANSWER_QUESTION value; NEXT_QUESTION].

(** The verdict is the one of the selected answer on the current question. *)
Definition verdictConsistent (state : QuizState) : Prop :=
  forall answer, currentAnswer state = Some answer ->
    exists q, currentQuestion state = Some q
      /\ isCorrect state = Some (String.eqb answer (word q))
      /\ showingAnswer state = true.

(** A completed session stands just past its last question. *)
Definition completedAtEnd (state : QuizState) : Prop :=
  quizCompleted state = true ->
  currentQuestionIndex state = Z.of_nat (List.length (questions state))
  /\ 0 < currentQuestionIndex state
  /\ currentAnswer state = None.

Definition sessionInvariant (state : QuizState) : Prop :=
  score state = 0 /\ userAnswers state = []
  /\ (speedLevel state = 1 \/ speedLevel state = 2 \/ speedLevel state = 3)
  /\ 0 <= currentQuestionIndex state
  /\ verdictConsistent state
  /\ completedAtEnd state.

(** Every pending timeout has between 0 and the full delay left. *)
Definition delaysBounded (t : Reveal.Timers) : Prop :=
  forall id d, In (id, d) (Reveal.pending t) -> 0 <= d <= Reveal.revealDelay.

(** In an unpaused reveal phase the timeout of the reveal effect is
    pending. *)
Definition advanceScheduled (t : Reveal.Timers) : Prop :=
  Reveal.revealPhase (Reveal.session t) = true ->
  isPaused (Reveal.session t) = false ->
  exists id d, Reveal.revealCleanup t = Some id
    /\ In (id, d) (Reveal.pending t).

End Invariants.

(** ** More sample data *)

Module MoreSamples.
Import Samples.

(** [cat] answered, then the page paused. *)
Definition pausedCat : Reveal.Timers :=
  Reveal.mkTimers
    (mkQuizState [cat; dog] 0 [] 0 false (Some "cat") (Some true) [] []
       true 1 true)
    true (Some 1%nat) [] None None 2.

(** [cat] answered 5000 units ago: its reveal timeout is due. *)
Definition dueCat : Reveal.Timers :=
  Reveal.mkTimers
    (mkQuizState [cat; dog] 0 [] 0 false (Some "cat") (Some true) [] []
       false 1 true)
    true (Some 1%nat) [(1%nat, 0)] (Some 1%nat) None 2.

End MoreSamples.

(** * Properties *)

(** ** The reducer and the handlers *)

Section SessionFacts.
Import Reducer Handlers Session Samples.

Lemma index_Some_bounds {A : Type} (arr : list A) (i : Z) (x : A) :
  index arr i = Some x -> 0 <= i < Z.of_nat (List.length arr).
Proof.
  unfold index. destruct (i <? 0) eqn:Hneg; [discriminate|].
  intros Hnth. apply Z.ltb_ge in Hneg.
  assert (Hlt : (Z.to_nat i < List.length arr)%nat)
    by (apply nth_error_Some; congruence).
  lia.
Qed.

(** [handleAnswer] on a session that has a current question: what both
    dispatches leave behind. *)
Lemma handleAnswer_spec (answer : string) (state : QuizState) (q : Question) :
  currentQuestion state = Some q ->
  handleAnswer answer state =
    Some (mkQuizState (questions state) (currentQuestionIndex state)
            (userAnswers state) (score state) (quizCompleted state)
            (Some answer) (Some (String.eqb answer (word q)))
            (shuffledOptions state) (fixedOptions state) (isPaused state)
            (speedLevel state) true).
Proof.
  intros Hq. unfold handleAnswer, dispatchAll, quizReducer.
  unfold currentQuestion in *. simpl. rewrite Hq. reflexivity.
Qed.

(** Without a current question the second dispatch throws. *)
Lemma handleAnswer_throws (answer : string) (state : QuizState) :
  currentQuestion state = None -> handleAnswer answer state = None.
Proof.
  intros Hq. unfold handleAnswer, dispatchAll, quizReducer.
  unfold currentQuestion in *. simpl. rewrite Hq. reflexivity.
Qed.

(** [handleAnswer] never writes [userAnswers] or [score]. *)
Lemma handleAnswer_frame (answer : string) (state state' : QuizState) :
  handleAnswer answer state = Some state' ->
  userAnswers state' = userAnswers state /\ score state' = score state
  /\ questions state' = questions state
  /\ currentQuestionIndex state' = currentQuestionIndex state
  /\ quizCompleted state' = quizCompleted state.
Proof.
  destruct (currentQuestion state) as [q|] eqn:Hq.
  - rewrite (handleAnswer_spec _ _ _ Hq). intros [= <-]. simpl. tauto.
  - rewrite (handleAnswer_throws _ _ Hq). discriminate.
Qed.

(** The reducer case that does record an answer and count it; no handler
    and no effect of the page dispatches it. *)
Lemma answerQuestion_scores (value : string) (state : QuizState)
    (q : Question) :
  currentQuestion state = Some q ->
  exists state', quizReducer state (ANSWER_QUESTION value) = Some state'
    /\ userAnswers state' = (userAnswers state ++ [value])%list
    /\ score state' =
         (if String.eqb value (word q) then score state + 1 else score state).
Proof.
  intros Hq. simpl. rewrite Hq. eexists. split; [reflexivity|]. simpl. tauto.
Qed.

(** C1, on the code: after the two-question list is loaded, answering "cat"
    to the first question selects the answer, marks it correct and opens the
    reveal, but records no answer and leaves the score at 0. *)
Theorem handleAnswer_records_no_score :
  exists state',
    handleAnswer "cat" (loadedWith [cat; dog]) = Some state'
    /\ currentAnswer state' = Some "cat"
    /\ isCorrect state' = Some true
    /\ showingAnswer state' = true
    /\ userAnswers state' = []
    /\ score state' = 0.
Proof.
  eexists. split; [reflexivity|]. simpl. repeat split; reflexivity.
Qed.

(** C3, on the code: on the one-question quiz [Advance] completes the
    session, and one more [NEXT_QUESTION] on the completed session moves the
    index past the end of the list and clears [quizCompleted]. *)
Theorem advance_on_completed_session_not_noop :
  handleNextQuestion (loadedWith [cat]) = Some completedCat
  /\ quizCompleted completedCat = true
  /\ exists state',
       handleNextQuestion completedCat = Some state'
       /\ state' <> completedCat
       /\ quizCompleted state' = false
       /\ currentQuestionIndex state' = 2
       /\ Z.of_nat (List.length (questions state')) < currentQuestionIndex state'.
Proof.
  split; [reflexivity|]. split; [reflexivity|].
  eexists. split; [reflexivity|]. simpl.
  repeat split; try reflexivity; try lia. discriminate.
Qed.

(** [Advance] on the last question completes the session. *)
Lemma advance_last_completes (state : QuizState) :
  currentQuestionIndex state = Z.of_nat (List.length (questions state)) - 1 ->
  exists state', handleNextQuestion state = Some state'
    /\ quizCompleted state' = true
    /\ currentQuestionIndex state' = Z.of_nat (List.length (questions state')).
Proof.
  intros Hlast. eexists. split; [reflexivity|]. simpl. split.
  - apply Z.eqb_eq. exact Hlast.
  - lia.
Qed.

(** The skip button is disabled on a completed session. *)
Lemma clickNext_completed (state : QuizState) :
  quizCompleted state = true -> clickNext state = Some state.
Proof. intros Hc. unfold clickNext. rewrite Hc. reflexivity. Qed.

End SessionFacts.

(** ** Selecting twice, and the answer invariant *)

Section AnswerFacts.
Import Reducer Handlers Session Samples.

(** [handleAnswer] has no guard of its own: called on a session whose
    answer is "cat", it would replace the answer and the verdict.  The page
    never makes that call: its two call sites are closed once an answer is
    selected (lines 161 and 391). *)
Lemma second_handleAnswer_overwrites :
  currentAnswer answeredCat = Some "cat"
  /\ exists state',
       handleAnswer "dog" answeredCat = Some state'
       /\ currentAnswer state' = Some "dog"
       /\ isCorrect state' = Some false
       /\ currentAnswer state' <> currentAnswer answeredCat
       /\ isCorrect state' <> isCorrect answeredCat.
Proof.
  split; [reflexivity|]. eexists. split; [reflexivity|]. simpl.
  repeat split; try reflexivity; discriminate.
Qed.

(** Once an answer is selected the option buttons are disabled, so a click
    leaves the session as it is, and the countdown that answers on timeout
    is not running. *)
Lemma answered_session_is_closed (value : string) (state : QuizState) :
  currentAnswer state <> None ->
  clickOption value state = Some state
  /\ Countdown.countdownRunning state = false.
Proof.
  intros Hsel. split.
  - unfold clickOption. destruct (quizCompleted state); [reflexivity|].
    destruct (currentAnswer state); [reflexivity|congruence].
  - unfold Countdown.countdownRunning.
    destruct (currentQuestion state); [|reflexivity].
    destruct (currentAnswer state); [apply andb_false_r|congruence].
Qed.

Lemma initial_answerInvariant : answerInvariant initialState.
Proof. unfold answerInvariant. simpl. tauto. Qed.

Lemma apply_answerInvariant (tr : Transition) (state state' : QuizState) :
  answerInvariant state -> apply tr state = Some state' ->
  answerInvariant state'.
Proof.
  unfold answerInvariant. intros Hinv Happ.
  destruct tr; simpl in Happ.
  - injection Happ as <-. simpl. tauto.
  - destruct (currentQuestion state) as [q|] eqn:Hq.
    + rewrite (handleAnswer_spec _ _ _ Hq) in Happ. injection Happ as <-.
      simpl. split; intros _; discriminate.
    + rewrite (handleAnswer_throws _ _ Hq) in Happ. discriminate.
  - injection Happ as <-. simpl. tauto.
  - injection Happ as <-. simpl. exact Hinv.
  - injection Happ as <-. simpl. exact Hinv.
  - injection Happ as <-. simpl. tauto.
  - injection Happ as <-. simpl. exact Hinv.
  - injection Happ as <-. simpl. tauto.
Qed.

Lemma reachable_answerInvariant (state : QuizState) :
  reachable state -> answerInvariant state.
Proof.
  induction 1 as [|tr state state' _ IH Happ].
  - exact initial_answerInvariant.
  - exact (apply_answerInvariant _ _ _ IH Happ).
Qed.

(** C9: in every reachable session, and after every transition out of it,
    an answer is selected exactly when a verdict is recorded. *)
Theorem answerInvariant_after_every_transition (state : QuizState) :
  reachable state ->
  answerInvariant state
  /\ forall tr state', apply tr state = Some state' -> answerInvariant state'.
Proof.
  intros Hreach. split.
  - exact (reachable_answerInvariant _ Hreach).
  - intros tr state' Happ.
    exact (apply_answerInvariant _ _ _ (reachable_answerInvariant _ Hreach) Happ).
Qed.

Lemma answeredCat_reachable : reachable answeredCat.
Proof.
  apply (reachable_apply (SelectAnswer "cat")
           (set_fixedOptions ["cat"; "dog"; "cow"; "hen"]
              (loadedWith [cat; dog]))); [|reflexivity].
  apply (reachable_apply (FixOptions ["cat"; "dog"; "cow"; "hen"])
           (loadedWith [cat; dog])); [|reflexivity].
  apply (reachable_apply (Load [cat; dog]) initialState); [|reflexivity].
  exact reachable_initial.
Defined.

Lemma answerInvariant_after_every_transition_witness :
  answerInvariant answeredCat
  /\ forall tr state', apply tr answeredCat = Some state' ->
       answerInvariant state'.
Proof.
  exact (answerInvariant_after_every_transition answeredCat
           answeredCat_reachable).
Defined.

End AnswerFacts.

(** ** Option synthesis *)

Section SynthesisFacts.
Import Reducer Handlers Synthesis Samples.

Lemma otherWords_In (w correct : string) (qs : list Question) :
  In w (otherWords correct qs) <->
  exists q, In q qs /\ word q = w /\ w <> correct.
Proof.
  unfold otherWords. rewrite in_map_iff. split.
  - intros (q & Hw & Hin). apply filter_In in Hin as (Hin & Hne).
    exists q. repeat split; trivial. subst w.
    apply negb_true_iff, String.eqb_neq in Hne. exact Hne.
  - intros (q & Hin & Hw & Hne). exists q. split; trivial.
    apply filter_In. split; trivial. subst w.
    apply negb_true_iff, String.eqb_neq. exact Hne.
Qed.

Lemma In_firstn {A : Type} (n : nat) (l : list A) (x : A) :
  In x (firstn n l) -> In x l.
Proof.
  intros Hin. rewrite <- (firstn_skipn n l). apply in_or_app. now left.
Qed.

(** Filtering out a word that occurs nowhere keeps the whole list. *)
Lemma otherWords_absent (correct : string) (qs : list Question) :
  ~ In correct (map word qs) ->
  List.length (otherWords correct qs) = List.length qs.
Proof.
  unfold otherWords. rewrite length_map.
  induction qs as [|a qs IH]; simpl; intros Hnot; [reflexivity|].
  destruct (String.eqb (word a) correct) eqn:Heq; simpl.
  - apply String.eqb_eq in Heq. exfalso. apply Hnot. now left.
  - f_equal. apply IH. intros Hin. apply Hnot. now right.
Qed.

(** When no two questions share a word, the other words are all the words
    but one. *)
Lemma otherWords_distinct (q : Question) (qs : list Question) :
  NoDup (map word qs) -> In q qs ->
  List.length (otherWords (word q) qs) = (List.length qs - 1)%nat.
Proof.
  induction qs as [|a qs IH]; simpl; intros Hnd Hin; [contradiction|].
  apply NoDup_cons_iff in Hnd as (Hfresh & Hnd).
  destruct Hin as [->|Hin].
  - unfold otherWords. simpl. rewrite String.eqb_refl. simpl.
    fold (otherWords (word q) qs). rewrite (otherWords_absent _ _ Hfresh). lia.
  - assert (Hne : String.eqb (word a) (word q) = false).
    { apply String.eqb_neq. intros Heq. apply Hfresh. rewrite Heq.
      now apply in_map. }
    unfold otherWords. simpl. rewrite Hne. simpl.
    fold (otherWords (word q) qs). rewrite (IH Hnd Hin).
    destruct qs; [contradiction|]. simpl. lia.
Qed.

(** With two entries for the same word there is one other question, yet no
    distractor is produced, whatever the random order. *)
Lemma shared_word_no_distractor_any_order
    (sortRandom : nat -> list string -> list string) :
  (forall n l, Permutation l (sortRandom n l)) ->
  synthesizedOptions sortRandom 0 bareCat [bareCat; cat'] = ["cat"].
Proof.
  intros Hperm.
  assert (Hnil : sortRandom 0%nat [] = []).
  { apply Permutation_nil. apply Hperm. }
  unfold synthesizedOptions, generateRandomOptions, otherWords. simpl.
  rewrite Hnil. reflexivity.
Qed.

(** C7, as stated, fails: in the list [bareCat; cat'] the first question has
    no options and one other question, and it gets no distractor (the
    random sort is taken to leave the order as it is; the list it sorts is
    empty). *)
Lemma synthesis_shared_word_no_distractor :
  options bareCat = []
  /\ (List.length [bareCat; cat'] - 1 = 1)%nat
  /\ synthesizedOptions (fun _ l => l) 0 bareCat [bareCat; cat'] = ["cat"]
  /\ List.length (generateRandomOptions (fun _ l => l) 0 (word bareCat)
                    [bareCat; cat'])
     <> Nat.min 3 (List.length [bareCat; cat'] - 1).
Proof.
  repeat split; try reflexivity. simpl. discriminate.
Qed.

Variable sortRandom : nat -> list string -> list string.
Hypothesis sortRandom_perm : forall n l, Permutation l (sortRandom n l).

Lemma generateRandomOptions_length (n : nat) (correct : string)
    (qs : list Question) :
  List.length (generateRandomOptions sortRandom n correct qs)
  = Nat.min 3 (List.length (otherWords correct qs)).
Proof.
  unfold generateRandomOptions. rewrite length_firstn.
  now rewrite <- (Permutation_length (sortRandom_perm n _)).
Qed.

Lemma generateRandomOptions_In (n : nat) (correct w : string)
    (qs : list Question) :
  In w (generateRandomOptions sortRandom n correct qs) ->
  In w (otherWords correct qs).
Proof.
  unfold generateRandomOptions. intros Hin. apply In_firstn in Hin.
  apply (Permutation_in _ (Permutation_sym (sortRandom_perm n _))). exact Hin.
Qed.

(** C7, amended: the options synthesized for a question of the list are its
    word followed by [min 3 k] distractors, [k] being the number of
    questions whose word differs from it; the distractors are drawn without
    replacement from those words, the correct word occurs exactly once, and
    every option is the word of a loaded question.  When no two questions
    share a word, [k] is the number of other questions. *)
Theorem synthesizedOptions_spec (n : nat) (q : Question)
    (qs : list Question) :
  In q qs ->
  let distractors := generateRandomOptions sortRandom n (word q) qs in
  synthesizedOptions sortRandom n q qs = word q :: distractors
  /\ List.length distractors
     = Nat.min 3 (List.length (otherWords (word q) qs))
  /\ (exists rest, Permutation (distractors ++ rest) (otherWords (word q) qs))
  /\ count_occ string_dec (synthesizedOptions sortRandom n q qs) (word q)
     = 1%nat
  /\ (forall w, In w (synthesizedOptions sortRandom n q qs) ->
        exists q', In q' qs /\ word q' = w)
  /\ (NoDup (map word qs) ->
        List.length distractors = Nat.min 3 (List.length qs - 1)).
Proof.
  intros Hin distractors. split; [reflexivity|].
  split; [apply generateRandomOptions_length|].
  split.
  { exists (skipn 3 (sortRandom n (otherWords (word q) qs))).
    unfold distractors, generateRandomOptions. rewrite firstn_skipn.
    apply Permutation_sym, sortRandom_perm. }
  split.
  { unfold synthesizedOptions. rewrite count_occ_cons_eq by reflexivity.
    f_equal. apply count_occ_not_In. intros Hmem.
    apply generateRandomOptions_In, otherWords_In in Hmem
      as (_ & _ & _ & Hne). now apply Hne. }
  split.
  { intros w [<-|Hmem].
    - now exists q.
    - apply generateRandomOptions_In, otherWords_In in Hmem
        as (q' & Hq' & Hw & _). now exists q'. }
  intros Hnd. unfold distractors. rewrite generateRandomOptions_length.
  now rewrite (otherWords_distinct _ _ Hnd Hin).
Qed.

End SynthesisFacts.

Lemma synthesizedOptions_spec_witness :
  In Samples.bareCat Samples.fiveBare
  /\ Synthesis.synthesizedOptions (fun _ l => rev l) 0
       Samples.bareCat Samples.fiveBare
     = ["cat"; "fox"; "hen"; "cow"]
  /\ count_occ string_dec
       (Synthesis.synthesizedOptions (fun _ l => rev l) 0
          Samples.bareCat Samples.fiveBare) "cat" = 1%nat.
Proof.
  assert (Hin : In Samples.bareCat Samples.fiveBare) by (simpl; tauto).
  split; [exact Hin|].
  pose proof (synthesizedOptions_spec (fun _ l => rev l)
                (fun _ l => Permutation_rev l) 0
                Samples.bareCat Samples.fiveBare Hin) as H.
  split; [reflexivity|]. exact (proj1 (proj2 (proj2 (proj2 H)))).
Defined.

Section SynthesisEffectFacts.
Import Reducer Handlers Synthesis Samples.

Variable sortRandom : nat -> list string -> list string.

Lemma length_mapFrom {A B : Type} (f : nat -> A -> B) (l : list A) (i : nat) :
  List.length (mapFrom i f l) = List.length l.
Proof.
  revert i. induction l as [|x l IH]; intros i; simpl; [reflexivity|].
  now rewrite IH.
Qed.

Lemma nth_error_mapFrom {A B : Type} (f : nat -> A -> B) (l : list A)
    (i k : nat) (x : A) :
  nth_error l k = Some x ->
  nth_error (mapFrom i f l) k = Some (f (i + k)%nat x).
Proof.
  revert i k. induction l as [|y l IH]; intros i k Hk.
  - destruct k; discriminate.
  - destruct k as [|k]; simpl in *.
    + injection Hk as ->. now rewrite Nat.add_0_r.
    + rewrite (IH (S i) k Hk). f_equal. f_equal. lia.
Qed.

(** C10: when the current question has no options, the synthesis effect
    rebuilds the options of every question of the list and dispatches
    [SET_QUESTIONS]; the session that results is the initial one around the
    new list, so index, score, answers, selected answer, verdict and
    completion are all back to their initial values. *)
Theorem synthesis_resets_progress (state : QuizState) (q : Question) :
  currentQuestion state = Some q -> options q = [] ->
  let newQuestions := synthesizeQuestions sortRandom (questions state) in
  synthesisEffect sortRandom state = Some (SET_QUESTIONS newQuestions)
  /\ List.length newQuestions = List.length (questions state)
  /\ (forall k q', nth_error (questions state) k = Some q' ->
        nth_error newQuestions k
        = Some (withOptions
                  (synthesizedOptions sortRandom k q' (questions state)) q'))
  /\ exists state',
       afterSynthesis sortRandom state = Some state'
       /\ questions state' = newQuestions
       /\ currentQuestionIndex state' = 0
       /\ score state' = 0
       /\ userAnswers state' = []
       /\ currentAnswer state' = None
       /\ isCorrect state' = None
       /\ quizCompleted state' = false.
Proof.
  intros Hq Hopts newQuestions.
  assert (Heff : synthesisEffect sortRandom state
                 = Some (SET_QUESTIONS newQuestions)).
  { unfold synthesisEffect. rewrite Hq, Hopts. reflexivity. }
  split; [exact Heff|].
  split; [apply length_mapFrom|].
  split.
  { intros k q' Hk. unfold newQuestions, synthesizeQuestions.
    now rewrite (nth_error_mapFrom _ _ 0 k q' Hk). }
  exists (set_questions newQuestions initialState).
  unfold afterSynthesis. rewrite Heff. simpl. repeat split; reflexivity.
Qed.

End SynthesisEffectFacts.

Lemma synthesis_resets_progress_witness :
  currentQuestion Samples.midQuiz = Some Samples.bareDog
  /\ options Samples.bareDog = []
  /\ currentQuestionIndex Samples.midQuiz = 1
  /\ exists state',
       Synthesis.afterSynthesis (fun _ l => l) Samples.midQuiz = Some state'
       /\ currentQuestionIndex state' = 0
       /\ quizCompleted state' = false.
Proof.
  assert (Hq : currentQuestion Samples.midQuiz = Some Samples.bareDog)
    by reflexivity.
  split; [exact Hq|]. split; [reflexivity|]. split; [reflexivity|].
  destruct (synthesis_resets_progress (fun _ l => l) Samples.midQuiz
              Samples.bareDog Hq eq_refl)
    as (_ & _ & _ & state' & Hafter & _ & Hidx & _ & _ & _ & _ & Hdone).
  exists state'. split; [exact Hafter|]. split; [exact Hidx|exact Hdone].
Defined.

(** ** The answering countdown *)

Section CountdownFacts.
Import Reducer Handlers Countdown Samples.

Local Open Scope Q_scope.

Lemma decrement_levels :
  decrement 1 == 100 /\ decrement 2 == 50 /\ decrement 3 == 100 # 3.
Proof. repeat split; reflexivity. Qed.

Lemma countdownUpdater_timeout (level : Z) (time : Q) :
  time <= 100 -> countdownUpdater level time = (0, true).
Proof.
  intros Hle. unfold countdownUpdater.
  apply Qle_bool_iff in Hle. now rewrite Hle.
Qed.


(** At the three speed levels a tick that does not time out leaves a
    positive remaining time: the countdown shows zero only by timing out. *)
Lemma countdown_zero_only_by_timeout (level : Z) (time time' : Q) :
  (level = 1 \/ level = 2 \/ level = 3)%Z ->
  countdownUpdater level time = (time', false) -> 0 < time'.
Proof.
  intros Hlevel. unfold countdownUpdater.
  destruct (Qle_bool time 100) eqn:Hle; [discriminate|].
  intros [= <-].
  assert (Hgt : 100 < time).
  { apply Qnot_le_lt. intros H. apply Qle_bool_iff in H. congruence. }
  assert (Hdec : decrement level <= 100).
  { destruct Hlevel as [-> | [-> | ->]]; unfold Qle; simpl; lia. }
  apply (Qplus_lt_l _ _ (decrement level)). ring_simplify.
  eapply Qle_lt_trans; [exact Hdec|exact Hgt].
Qed.

(** C2: when the interval callback finds 100 or less of remaining time on an
    unanswered, unpaused question, the countdown goes to zero and
    [handleAnswer] runs with the word of the current question: that word is
    selected, the verdict is "correct", the reveal opens, and the score is
    what it was. *)
Theorem timeout_selects_correct_word (c : Countdown) (q : Question) :
  currentQuestion (session c) = Some q ->
  isPaused (session c) = false ->
  currentAnswer (session c) = None ->
  remainingTime c <= 100 ->
  exists state',
    intervalTick c = Some (mkCountdown state' 0)
    /\ handleAnswer (word q) (session c) = Some state'
    /\ currentAnswer state' = Some (word q)
    /\ isCorrect state' = Some true
    /\ showingAnswer state' = true
    /\ score state' = score (session c)
    /\ (score (session c) <= score state')%Z.
Proof.
  intros Hq Hrun Hnone Htime.
  pose proof (handleAnswer_spec (word q) _ _ Hq) as Hans.
  eexists. split.
  { unfold intervalTick, countdownRunning.
    rewrite Hq, Hrun, Hnone. simpl.
    rewrite (countdownUpdater_timeout _ _ Htime), Hans. reflexivity. }
  split; [exact Hans|]. simpl. rewrite String.eqb_refl.
  repeat split; reflexivity.
Qed.

Lemma timeout_selects_correct_word_witness :
  exists state',
    intervalTick (mkCountdown (loadedWith [cat; dog]) 100)
    = Some (mkCountdown state' 0)
    /\ currentAnswer state' = Some "cat"
    /\ isCorrect state' = Some true.
Proof.
  destruct (timeout_selects_correct_word
              (mkCountdown (loadedWith [cat; dog]) 100) cat
              eq_refl eq_refl eq_refl)
    as (state' & Htick & _ & Hsel & Hok & _).
  - unfold Qle. simpl. lia.
  - exists state'. split; [exact Htick|]. split; [exact Hsel|exact Hok].
Defined.

(** The length of an answering phase left alone, in interval callbacks, at
    the two levels where every remaining time is an integer. *)
Lemma ticks_at_integer_levels :
  ticksUntilTimeout 200 1 fullTime = Some 50%nat
  /\ ticksUntilTimeout 200 2 fullTime = Some 99%nat.
Proof. repeat split; vm_compute; reflexivity. Qed.




End CountdownFacts.

(** ** The empty list *)

Section EmptyListFacts.
Import Reducer Handlers.

(** C4, on the code: loading the empty list leaves a session that is not
    completed, with score 0 and no current question.  The three effects
    that read the current question are guarded and do nothing, but the
    page takes the quiz branch of its render and throws on
    [currentQuestion.question]: there is no screen at all, where the claim
    has a completed quiz. *)
Theorem load_empty_list_throws_on_render :
  exists t state',
    Reveal.step (Reveal.Upload []) Reveal.mounted = Some t
    /\ Reveal.session t = state'
    /\ load [] initialState = Some state'
    /\ quizCompleted state' = false
    /\ score state' = 0
    /\ currentQuestion state' = None
    /\ (forall patternCompiles, View.mainView patternCompiles state' = None)
    /\ Countdown.countdownRunning state' = false
    /\ Reveal.revealPhase state' = false
    /\ forall sortRandom, Synthesis.synthesisEffect sortRandom state' = None.
Proof.
  eexists. eexists. split; [reflexivity|]. split; [reflexivity|].
  split; [reflexivity|]. repeat split; reflexivity.
Qed.

(** The guards of the effects hold for any session made from the empty
    list, whatever came before. *)
Lemma load_empty_effects_idle (state : QuizState) :
  exists state',
    load [] state = Some state'
    /\ currentQuestion state' = None
    /\ Countdown.countdownRunning state' = false
    /\ Reveal.revealPhase state' = false
    /\ forall sortRandom, Synthesis.synthesisEffect sortRandom state' = None.
Proof.
  eexists. split; [reflexivity|]. repeat split; reflexivity.
Qed.

End EmptyListFacts.

(** ** The reveal timers *)

Section RevealFacts.
Import Reducer Handlers Reveal Samples.

Lemma clearTimeout_In (id : option nat) (l : list (nat * Z)) (p : nat * Z) :
  In p (clearTimeout id l) -> In p l /\ id <> Some (fst p).
Proof.
  destruct id as [i|]; simpl.
  - rewrite filter_In. intros [Hin Hne]. split; [exact Hin|].
    apply negb_true_iff, Nat.eqb_neq in Hne. congruence.
  - intros Hin. split; [exact Hin|discriminate].
Qed.

Lemma clearTimeout_nil (id : option nat) : clearTimeout id [] = [].
Proof. now destruct id. Qed.

Lemma owned_cleared (t : Timers) :
  owned t ->
  clearTimeout (pauseCleanup t) (clearTimeout (revealCleanup t) (pending t))
  = [].
Proof.
  intros Hown.
  destruct (clearTimeout (pauseCleanup t)
              (clearTimeout (revealCleanup t) (pending t)))
    as [|[id d] rest] eqn:Hl; [reflexivity|].
  assert (Hin : In (id, d)
                  (clearTimeout (pauseCleanup t)
                     (clearTimeout (revealCleanup t) (pending t))))
    by (rewrite Hl; now left).
  apply clearTimeout_In in Hin as [Hin Hp].
  apply clearTimeout_In in Hin as [Hin Hr].
  destruct (Hown _ _ Hin); simpl in *; congruence.
Qed.

Lemma sameRevealDeps_pause (prev next : QuizState) :
  sameRevealDeps prev next = true -> samePauseDeps prev next = true.
Proof.
  unfold sameRevealDeps, samePauseDeps. intros H.
  now apply andb_true_iff in H as [_ H].
Qed.

Lemma commit_session (prev : QuizState) (t : Timers) :
  session (commit prev t) = session t.
Proof.
  unfold commit, runCleanups, revealEffect, pauseEffect.
  repeat match goal with
         | |- context [if ?b then _ else _] => destruct b
         end; reflexivity.
Qed.

Lemma commit_loaded (prev : QuizState) (t : Timers) :
  loaded (commit prev t) = loaded t.
Proof.
  unfold commit, runCleanups, revealEffect, pauseEffect.
  repeat match goal with
         | |- context [if ?b then _ else _] => destruct b
         end; reflexivity.
Qed.

Ltac split_membership H :=
  repeat match type of H with
         | In _ (_ ++ _) => apply in_app_or in H; destruct H as [H|H]
         | In _ (clearTimeout _ _) =>
             let Hne := fresh "Hne" in
             apply clearTimeout_In in H as [H Hne]; simpl in Hne
         | In _ [_] => destruct H as [H|[]]; inversion H; subst; clear H
         end.

Lemma commit_owned (prev : QuizState) (t : Timers) :
  owned t -> owned (commit prev t).
Proof.
  unfold owned, commit, runCleanups, revealEffect, pauseEffect.
  intros Hown id d.
  repeat match goal with
         | |- context [if ?b then _ else _] => destruct b
         end; cbn [session loaded answerTimer pending revealCleanup
                     pauseCleanup nextId];
    intros Hin; split_membership Hin;
    try (now left); try (now right);
    try (destruct (Hown _ _ Hin) as [Ho|Ho]; rewrite Ho in *;
         (now left) || (now right) || congruence).
Qed.

Lemma commit_quiet (prev : QuizState) (t : Timers) :
  owned t -> (isPaused prev = true -> pending t = []) ->
  quietWhilePaused (commit prev t).
Proof.
  intros Hown Hquiet. unfold quietWhilePaused. rewrite commit_session.
  intros Hpaused. unfold commit, runCleanups.
  destruct (samePauseDeps prev (session t)) eqn:Hp.
  - assert (Hnil : pending t = []).
    { apply Hquiet. unfold samePauseDeps in Hp. apply eqb_prop in Hp.
      congruence. }
    rewrite Hnil.
    destruct (sameRevealDeps prev (session t)); [reflexivity|].
    rewrite clearTimeout_nil. unfold revealEffect.
    cbn [session pending]. rewrite Hpaused.
    destruct (answered (session t) && negb (quizCompleted (session t))
              && showingAnswer (session t)); cbn;
      [apply clearTimeout_nil|reflexivity].
  - destruct (sameRevealDeps prev (session t)) eqn:Hr.
    { apply sameRevealDeps_pause in Hr. congruence. }
    rewrite (owned_cleared t Hown). unfold revealEffect, pauseEffect.
    cbn [session pending]. rewrite Hpaused.
    destruct (answered (session t) && negb (quizCompleted (session t))
              && showingAnswer (session t));
      cbn [session pending negb]; rewrite ?Hpaused;
      destruct (answered (session t) && showingAnswer (session t));
      cbn; rewrite ?clearTimeout_nil; reflexivity.
Qed.

Lemma apply_shown (tr : Session.Transition) (state state' : QuizState) :
  shownOnceAnswered state -> Session.apply tr state = Some state' ->
  shownOnceAnswered state'.
Proof.
  unfold shownOnceAnswered, answered. intros Hshown Happ.
  destruct tr; simpl in Happ;
    try (injection Happ as <-; simpl; solve [exact Hshown | discriminate]).
  destruct (currentQuestion state) as [q|] eqn:Hq.
  - rewrite (handleAnswer_spec _ _ _ Hq) in Happ. injection Happ as <-.
    reflexivity.
  - rewrite (handleAnswer_throws _ _ Hq) in Happ. discriminate.
Qed.

Lemma clickOption_shown (opt : string) (state state' : QuizState) :
  shownOnceAnswered state -> clickOption opt state = Some state' ->
  shownOnceAnswered state'.
Proof.
  intros Hshown. unfold clickOption.
  destruct (quizCompleted state); [now intros [= <-]|].
  destruct (currentAnswer state); [now intros [= <-]|].
  exact (apply_shown (Session.SelectAnswer opt) _ _ Hshown).
Qed.

(** A handler run on a loaded, well-formed component leaves it so. *)
Lemma dispatching_wellFormed
    (handler : QuizState -> option QuizState) (t t' : Timers) :
  owned t -> quietWhilePaused t -> loaded t = true ->
  (forall state', handler (session t) = Some state' ->
                  shownOnceAnswered state') ->
  dispatching handler t = Some t' -> wellFormed t'.
Proof.
  intros Hown Hquiet Hloaded Hshown. unfold dispatching.
  destruct (handler (session t)) as [state'|] eqn:Hh; [|discriminate].
  intros [= <-]. repeat split.
  - apply commit_owned. exact Hown.
  - apply commit_quiet; [exact Hown|exact Hquiet].
  - rewrite commit_session. simpl. now apply Hshown.
  - unfold untouchedUntilLoaded. rewrite commit_loaded. simpl. congruence.
Qed.

Lemma wellFormed_loaded_of_question (t : Timers) (q : Question) :
  wellFormed t -> currentQuestion (session t) = Some q -> loaded t = true.
Proof.
  intros (_ & _ & _ & Hun) Hq.
  destruct (loaded t) eqn:Hl; [reflexivity|].
  rewrite (Hun Hl) in Hq. discriminate.
Qed.

Lemma step_wellFormed (e : Event) (t t' : Timers) :
  wellFormed t -> step e t = Some t' -> wellFormed t'.
Proof.
  intros Hwf. pose proof Hwf as (Hown & Hquiet & Hshown & Hun).
  destruct e; cbn [step].
  - destruct (loaded t); [discriminate|].
    apply dispatching_wellFormed; trivial.
    intros state'. exact (apply_shown (Session.Load qs) _ _ Hshown).
  - destruct (currentQuestion (session t)) as [q|] eqn:Hq; [|discriminate].
    destruct (options q); [|discriminate].
    apply dispatching_wellFormed; trivial.
    + exact (wellFormed_loaded_of_question _ _ Hwf Hq).
    + intros state'. exact (apply_shown (Session.Synthesize qs) _ _ Hshown).
  - destruct (currentQuestion (session t)) as [q|] eqn:Hq; [|discriminate].
    destruct (options q); [discriminate|].
    apply dispatching_wellFormed; trivial.
    + exact (wellFormed_loaded_of_question _ _ Hwf Hq).
    + intros state'. exact (apply_shown (Session.FixOptions opts) _ _ Hshown).
  - destruct (loaded t) eqn:Hl; [|discriminate].
    apply dispatching_wellFormed; trivial.
    intros state'. exact (clickOption_shown _ _ _ Hshown).
  - destruct (currentQuestion (session t)) as [q|] eqn:Hq; [|discriminate].
    destruct (negb (isPaused (session t)) && negb (answered (session t)));
      [|discriminate].
    apply dispatching_wellFormed; trivial.
    + exact (wellFormed_loaded_of_question _ _ Hwf Hq).
    + intros state'.
      exact (apply_shown (Session.SelectAnswer (word q)) _ _ Hshown).
  - destruct (loaded t) eqn:Hl; [|discriminate].
    destruct (quizCompleted (session t)); [now intros [= <-]|].
    apply dispatching_wellFormed; trivial.
    + intros id d Hin. cbn [withPending pending] in Hin.
      apply clearTimeout_In in Hin as [Hin _].
      exact (Hown _ _ Hin).
    + intros Hp. simpl. rewrite (Hquiet Hp). apply clearTimeout_nil.
    + intros state'. exact (apply_shown Session.Advance _ _ Hshown).
  - destruct (loaded t) eqn:Hl; [|discriminate].
    apply dispatching_wellFormed; trivial.
    intros state'. exact (apply_shown Session.TogglePause _ _ Hshown).
  - destruct (loaded t) eqn:Hl; [|discriminate].
    apply dispatching_wellFormed; trivial.
    intros state'. exact (apply_shown Session.SetSpeedLevel _ _ Hshown).
  - destruct (loaded t) eqn:Hl; [|discriminate]. simpl.
    destruct (quizCompleted (session t)); [|discriminate].
    apply dispatching_wellFormed; trivial.
    intros state'. exact (apply_shown Session.Reset _ _ Hshown).
  - destruct ((0 <=? d) && forallb (fun p => d <=? snd p) (pending t));
      [|discriminate].
    intros [= <-]. repeat split.
    + intros id d' Hin. simpl in Hin. apply in_map_iff in Hin
        as ([id0 d0] & [= <- _] & Hin). exact (Hown _ _ Hin).
    + intros Hp. simpl. now rewrite (Hquiet Hp).
    + exact Hshown.
    + intros Hl. simpl in Hl. rewrite (Hun Hl). reflexivity.
  - destruct (existsb (isDue id) (pending t)) eqn:Hdue; [|discriminate].
    assert (Hl : loaded t = true).
    { destruct (loaded t) eqn:Hl; [reflexivity|].
      rewrite (Hun Hl) in Hdue. discriminate. }
    apply dispatching_wellFormed; trivial.
    + intros id' d Hin. cbn [withPending pending] in Hin.
      apply clearTimeout_In in Hin as [Hin _].
      exact (Hown _ _ Hin).
    + intros Hp. simpl. now rewrite (Hquiet Hp).
    + intros state'. exact (apply_shown Session.Advance _ _ Hshown).
Qed.

Lemma mounted_wellFormed : wellFormed mounted.
Proof.
  repeat split.
  - intros id d [].
  - discriminate.
Qed.

Lemma reachable_wellFormed (t : Timers) : reachable t -> wellFormed t.
Proof.
  induction 1 as [|e t t' _ IH Hstep].
  - exact mounted_wellFormed.
  - exact (step_wellFormed _ _ _ IH Hstep).
Qed.

(** Resuming a paused reveal: both effects start a timeout of the full
    delay, and nothing else is pending. *)
Lemma resume_starts_full_timeouts (t : Timers) :
  loaded t = true -> pending t = [] ->
  isPaused (session t) = true -> revealPhase (session t) = true ->
  showingAnswer (session t) = true ->
  step ClickPause t =
    Some (mkTimers (set_isPaused false (session t)) true
            (Some (S (nextId t)))
            [(nextId t, 5000); (S (nextId t), 5000)]
            (Some (nextId t)) (Some (S (nextId t))) (S (S (nextId t)))).
Proof.
  destruct t as [state l seen p rc pc n].
  destruct state as [qs i ua sc done ans ok so fo paused lv shown].
  unfold revealPhase, answered. simpl.
  intros -> -> -> Hphase ->.
  destruct ans as [a|]; [|discriminate].
  destruct done; [discriminate|].
  unfold step, dispatching, togglePause, commit, runCleanups, revealEffect,
    pauseEffect, sameRevealDeps, samePauseDeps. simpl.
  rewrite String.eqb_refl. simpl. rewrite !clearTimeout_nil. reflexivity.
Qed.

Lemma elapse_before_due (t : Timers) (n : nat) (d : Z) :
  pending t = [(n, 5000); (S n, 5000)] -> 0 <= d < 5000 ->
  exists t', step (Elapse d) t = Some t'
    /\ session t' = session t
    /\ forall id, step (Fire id) t' = None.
Proof.
  intros Hp Hd.
  assert (H0 : (0 <=? d) = true) by (apply Z.leb_le; lia).
  assert (H1 : (d <=? 5000) = true) by (apply Z.leb_le; lia).
  assert (H2 : (5000 - d <=? 0) = false) by (apply Z.leb_gt; lia).
  exists (withPending [(n, 5000 - d); (S n, 5000 - d)] t).
  split.
  { unfold step. rewrite Hp. cbn [forallb map fst snd].
    rewrite H0, H1. reflexivity. }
  split; [reflexivity|].
  intros id. unfold step. cbn [withPending pending existsb].
  unfold isDue. cbn [fst snd]. rewrite H2, !andb_false_r. reflexivity.
Qed.

(** C5: pausing a session that is in the reveal phase leaves no timeout
    pending; when it is resumed, after any time spent paused, the only
    pending timeouts are new ones of the full 5000 units, the session is
    what it was before the pause, and for the next 5000 units no timeout
    is due, so that no automatic advance can run. *)
Theorem pause_resume_restarts_reveal (t : Timers) :
  reachable t ->
  revealPhase (session t) = true -> isPaused (session t) = false ->
  exists paused,
    step ClickPause t = Some paused
    /\ pending paused = []
    /\ isPaused (session paused) = true
    /\ forall d, 0 <= d ->
       exists later resumed,
         step (Elapse d) paused = Some later
         /\ step ClickPause later = Some resumed
         /\ session resumed = session t
         /\ pending resumed
            = [(nextId later, 5000); (S (nextId later), 5000)]
         /\ forall d', 0 <= d' < 5000 ->
            exists waiting,
              step (Elapse d') resumed = Some waiting
              /\ session waiting = session resumed
              /\ forall id, step (Fire id) waiting = None.
Proof.
  intros Hreach Hphase Hrun.
  pose proof (reachable_wellFormed _ Hreach) as Hwf.
  pose proof Hwf as (Hown & Hquiet & Hshown & Hun).
  assert (Hloaded : loaded t = true).
  { destruct (loaded t) eqn:Hl; [reflexivity|].
    rewrite (Hun Hl) in Hphase. discriminate. }
  assert (Hans : answered (session t) = true).
  { unfold revealPhase in Hphase. now apply andb_true_iff in Hphase. }
  destruct (step ClickPause t) as [paused|] eqn:Hpause.
  2:{ simpl in Hpause. rewrite Hloaded in Hpause. discriminate. }
  pose proof (step_wellFormed _ _ _ Hwf Hpause)
    as (_ & Hquiet' & _ & _).
  assert (Hsession : session paused = set_isPaused true (session t)).
  { simpl in Hpause. rewrite Hloaded in Hpause.
    unfold dispatching, togglePause in Hpause. simpl in Hpause.
    injection Hpause as <-. rewrite commit_session. simpl.
    now rewrite Hrun. }
  assert (Hloaded' : loaded paused = true).
  { simpl in Hpause. rewrite Hloaded in Hpause.
    unfold dispatching, togglePause in Hpause. simpl in Hpause.
    injection Hpause as <-. rewrite commit_loaded. exact Hloaded. }
  assert (Hpaused : isPaused (session paused) = true)
    by (now rewrite Hsession).
  assert (Hnil : pending paused = []) by (now apply Hquiet').
  exists paused. split; [reflexivity|]. split; [exact Hnil|].
  split; [exact Hpaused|].
  intros d Hd.
  assert (Hlater : step (Elapse d) paused = Some (withPending [] paused)).
  { simpl. rewrite Hnil. simpl.
    assert (H0 : (0 <=? d) = true) by (apply Z.leb_le; lia).
    now rewrite H0. }
  pose proof (resume_starts_full_timeouts (withPending [] paused)) as Hres.
  cbn [withPending loaded pending session nextId] in Hres.
  rewrite Hsession in Hres.
  specialize (Hres Hloaded' eq_refl eq_refl Hphase (Hshown Hans)).
  eexists. eexists. split; [exact Hlater|]. split; [exact Hres|].
  split.
  { cbn [session]. destruct (session t). simpl in *. now subst. }
  split; [reflexivity|].
  intros d' Hd'. eapply elapse_before_due; [reflexivity|exact Hd'].
Qed.

Lemma run_reachable (es : list Event) (t t' : Timers) :
  reachable t -> run es t = Some t' -> reachable t'.
Proof.
  revert t. induction es as [|e es IH]; intros t Hreach; simpl.
  - now intros [= <-].
  - destruct (step e t) as [t1|] eqn:Hstep; [|discriminate].
    apply IH. exact (reachable_step e t t1 Hreach Hstep).
Defined.

Lemma revealingCat_reachable : reachable revealingCat.
Proof.
  apply (run_reachable
           [Upload [cat; dog]; ClickOption "cat"; Elapse 2000] mounted).
  - exact reachable_mounted.
  - vm_compute. reflexivity.
Defined.

Lemma pause_resume_restarts_reveal_witness :
  exists paused,
    step ClickPause revealingCat = Some paused /\ pending paused = [].
Proof.
  destruct (pause_resume_restarts_reveal revealingCat
              revealingCat_reachable eq_refl eq_refl)
    as (paused & Hstep & Hnil & _).
  exists paused. split; [exact Hstep|exact Hnil].
Defined.

(** The path by which the page itself dispatches [NEXT_QUESTION] on a
    completed session: after a pause and a resume during the reveal both
    effects hold a timeout, and both run. *)
Lemma resume_advances_twice :
  exists t,
    run pauseResumeWait mounted = Some t
    /\ questions (session t) = [cat]
    /\ currentQuestionIndex (session t) = 2
    /\ quizCompleted (session t) = false
    /\ currentQuestion (session t) = None.
Proof.
  eexists. split; [vm_compute; reflexivity|]. repeat split; reflexivity.
Qed.

End RevealFacts.

(** ** Invariants of the session *)

Section SessionInvariants.
Import Reducer Handlers Session Invariants Samples.

Lemma index_in_range {A : Type} (arr : list A) (i : Z) :
  0 <= i < Z.of_nat (List.length arr) -> exists x, index arr i = Some x.
Proof.
  intros Hrange. unfold index.
  destruct (i <? 0) eqn:Hneg; [apply Z.ltb_lt in Hneg; lia|].
  destruct (nth_error arr (Z.to_nat i)) as [x|] eqn:Hnth; [now exists x|].
  apply nth_error_None in Hnth. lia.
Qed.

(** [handleAnswer] throws exactly when the index is outside the list. *)
Theorem handleAnswer_throws_iff_out_of_range (answer : string)
    (state : QuizState) :
  handleAnswer answer state = None <->
  (currentQuestionIndex state < 0
   \/ Z.of_nat (List.length (questions state)) <= currentQuestionIndex state).
Proof.
  split.
  - intros Hnone.
    destruct (Z_lt_dec (currentQuestionIndex state) 0) as [|Hge]; [now left|].
    destruct (Z_le_dec (Z.of_nat (List.length (questions state)))
                (currentQuestionIndex state)) as [|Hlt]; [now right|].
    destruct (index_in_range (questions state) (currentQuestionIndex state))
      as [q Hq]; [lia|].
    rewrite (handleAnswer_spec _ _ _ Hq) in Hnone. discriminate.
  - intros Hout. apply handleAnswer_throws.
    destruct (currentQuestion state) as [q|] eqn:Hq; [|reflexivity].
    apply index_Some_bounds in Hq. lia.
Qed.

Ltac split_invariant :=
  unfold sessionInvariant;
  split; [|split; [|split; [|split; [|split]]]]; simpl.

Lemma fresh_sessionInvariant (qs : list Question) :
  sessionInvariant (set_questions qs initialState).
Proof.
  split_invariant; try reflexivity; try lia.
  - intros answer [=].
  - intros [=].
Qed.

Lemma initial_sessionInvariant : sessionInvariant initialState.
Proof. exact (fresh_sessionInvariant []). Qed.

Lemma rem3_level (n : Z) :
  n = 1 \/ n = 2 \/ n = 3 ->
  Z.rem n 3 + 1 = 1 \/ Z.rem n 3 + 1 = 2 \/ Z.rem n 3 + 1 = 3.
Proof. intros [-> | [-> | ->]]; simpl; lia. Qed.

Lemma apply_sessionInvariant (tr : Transition) (state state' : QuizState) :
  sessionInvariant state -> apply tr state = Some state' ->
  sessionInvariant state'.
Proof.
  intros (Hscore & Hans & Hlevel & Hidx & Hverdict & Hdone) Happ.
  destruct tr; simpl in Happ.
  - injection Happ as <-. apply fresh_sessionInvariant.
  - destruct (currentQuestion state) as [q|] eqn:Hq.
    + rewrite (handleAnswer_spec _ _ _ Hq) in Happ. injection Happ as <-.
      apply index_Some_bounds in Hq as Hrange.
      split_invariant; trivial.
      * intros answer [= <-]. exists q. now repeat split.
      * intros Hc. destruct (Hdone Hc) as [Hend _]. lia.
    + rewrite (handleAnswer_throws _ _ Hq) in Happ. discriminate.
  - injection Happ as <-. split_invariant; trivial; try lia.
    + intros answer [=].
    + intros Hc. simpl in Hc. apply Z.eqb_eq in Hc. simpl.
      split; [lia|]. split; [lia|trivial].
  - injection Happ as <-. split_invariant; trivial.
  - injection Happ as <-. split_invariant; trivial. now apply rem3_level.
  - injection Happ as <-. apply fresh_sessionInvariant.
  - injection Happ as <-. split_invariant; trivial.
  - injection Happ as <-. apply fresh_sessionInvariant.
Qed.

Lemma reachable_sessionInvariant (state : QuizState) :
  reachable state -> sessionInvariant state.
Proof.
  induction 1 as [|tr state state' _ IH Happ].
  - exact initial_sessionInvariant.
  - exact (apply_sessionInvariant _ _ _ IH Happ).
Qed.


(** In every reachable session the score is 0 and no answer is recorded;
    the completion screen therefore reports 0 right answers. *)
Theorem reachable_score_stays_zero (state : QuizState) :
  reachable state ->
  score state = 0 /\ userAnswers state = []
  /\ (quizCompleted state = true ->
      forall patternCompiles,
        View.mainView patternCompiles state
        = Some (View.CompletedScreen 0
                  (Z.of_nat (List.length (questions state))))).
Proof.
  intros Hreach.
  destruct (reachable_sessionInvariant _ Hreach) as (Hscore & Hans & _).
  split; [exact Hscore|]. split; [exact Hans|].
  intros Hdone patternCompiles. unfold View.mainView.
  now rewrite Hdone, Hscore.
Qed.

Lemma reachable_score_stays_zero_witness :
  score answeredCat = 0 /\ userAnswers answeredCat = [].
Proof.
  destruct (reachable_score_stays_zero answeredCat answeredCat_reachable)
    as (Hscore & Hans & _).
  split; [exact Hscore|exact Hans].
Defined.

(** In every reachable session with a selected answer there is a current
    question, the verdict says whether the answer is its word, and the
    answer is being shown. *)
Theorem reachable_verdict_matches_answer (state : QuizState)
    (answer : string) :
  reachable state -> currentAnswer state = Some answer ->
  exists q, currentQuestion state = Some q
    /\ isCorrect state = Some (String.eqb answer (word q))
    /\ showingAnswer state = true.
Proof.
  intros Hreach Hsel.
  destruct (reachable_sessionInvariant _ Hreach)
    as (_ & _ & _ & _ & Hverdict & _).
  exact (Hverdict answer Hsel).
Qed.

Lemma reachable_verdict_matches_answer_witness :
  exists q, currentQuestion answeredCat = Some q
    /\ isCorrect answeredCat = Some (String.eqb "cat" (word q))
    /\ showingAnswer answeredCat = true.
Proof.
  exact (reachable_verdict_matches_answer answeredCat "cat"
           answeredCat_reachable eq_refl).
Defined.

(** The speed level of a reachable session is 1, 2 or 3, and three presses
    of the speed button bring the session back to what it was. *)
Theorem speed_level_cycles (state : QuizState) :
  reachable state ->
  (speedLevel state = 1 \/ speedLevel state = 2 \/ speedLevel state = 3)
  /\ exists s1 s2,
       toggleSpeedLevel state = Some s1
       /\ toggleSpeedLevel s1 = Some s2
       /\ toggleSpeedLevel s2 = Some state
       /\ speedLevel s1 <> speedLevel state
       /\ speedLevel s2 <> speedLevel state
       /\ speedLevel s1 <> speedLevel s2.
Proof.
  intros Hreach.
  destruct (reachable_sessionInvariant _ Hreach) as (_ & _ & Hlevel & _).
  split; [exact Hlevel|].
  eexists. eexists. split; [reflexivity|]. split; [reflexivity|].
  destruct state as [qs i ua sc done ans ok so fo paused lv shown].
  simpl in *.
  destruct Hlevel as [-> | [-> | ->]]; simpl;
    (split; [reflexivity|]); repeat split; discriminate.
Qed.

Lemma speed_level_cycles_witness :
  speedLevel answeredCat = 1 \/ speedLevel answeredCat = 2
  \/ speedLevel answeredCat = 3.
Proof.
  exact (proj1 (speed_level_cycles answeredCat answeredCat_reachable)).
Defined.

(** A reachable completed session stands just past the last question of a
    non-empty list, with nothing selected and nothing to answer; restarting
    it keeps the list and puts the first question up with the countdown
    running. *)
Theorem restart_returns_to_first_question (state : QuizState) :
  reachable state -> quizCompleted state = true ->
  currentQuestionIndex state = Z.of_nat (List.length (questions state))
  /\ currentQuestion state = None
  /\ currentAnswer state = None
  /\ exists first state',
       hd_error (questions state) = Some first
       /\ resetQuiz state = Some state'
       /\ questions state' = questions state
       /\ currentQuestion state' = Some first
       /\ quizCompleted state' = false
       /\ Countdown.countdownRunning state' = true.
Proof.
  intros Hreach Hdone.
  destruct (reachable_sessionInvariant _ Hreach)
    as (_ & _ & _ & _ & _ & Hend).
  destruct (Hend Hdone) as (Hidx & Hpos & Hnone).
  split; [exact Hidx|]. split.
  { destruct (currentQuestion state) as [q|] eqn:Hq; [|reflexivity].
    apply index_Some_bounds in Hq. lia. }
  split; [exact Hnone|].
  destruct (questions state) as [|first rest] eqn:Hqs.
  { simpl in Hidx. lia. }
  exists first. eexists. split; [reflexivity|]. split; [reflexivity|].
  simpl. rewrite Hqs. repeat split; reflexivity.
Qed.

Lemma completedCat_reachable : reachable completedCat.
Proof.
  apply (reachable_apply Advance (loadedWith [cat])); [|reflexivity].
  apply (reachable_apply (Load [cat]) initialState); [|reflexivity].
  exact reachable_initial.
Defined.

Lemma restart_returns_to_first_question_witness :
  currentQuestionIndex completedCat = 1
  /\ currentQuestion completedCat = None.
Proof.
  destruct (restart_returns_to_first_question completedCat
              completedCat_reachable eq_refl) as (Hidx & Hq & _).
  split; [exact Hidx|exact Hq].
Defined.

(** The colours of the option buttons in a reachable session: all blue
    before an answer is selected; afterwards the button of the correct word
    is green, the selected one is green or red as the answer is right or
    wrong, every other button is gray, and at most the selected button is
    red. *)
Theorem option_button_colours (state : QuizState) (q : Question) :
  reachable state -> currentQuestion state = Some q ->
  (currentAnswer state = None ->
   forall opt, View.optionStyle state q opt = View.Blue)
  /\ forall answer, currentAnswer state = Some answer ->
       View.optionStyle state q (word q) = View.Green
       /\ View.optionStyle state q answer
          = (if String.eqb answer (word q) then View.Green else View.Red)
       /\ forall opt,
            (opt <> answer -> opt <> word q ->
             View.optionStyle state q opt = View.Gray)
            /\ (View.optionStyle state q opt = View.Red ->
                opt = answer /\ answer <> word q)
            /\ View.optionStyle state q opt <> View.Blue.
Proof.
  intros Hreach Hq. split.
  { intros Hnone opt. unfold View.optionStyle. now rewrite Hnone. }
  intros answer Hsel.
  destruct (reachable_sessionInvariant _ Hreach)
    as (_ & _ & _ & _ & Hverdict & _).
  destruct (Hverdict answer Hsel) as (q' & Hq' & Hok & _).
  assert (q' = q) by congruence. subst q'.
  unfold View.optionStyle. rewrite Hsel, Hok. simpl.
  rewrite !String.eqb_refl.
  destruct (String.eqb answer (word q)) eqn:Hright; simpl.
  - apply String.eqb_eq in Hright. subst answer.
    rewrite ?String.eqb_refl. split; [reflexivity|]. split; [reflexivity|].
    intros opt. rewrite andb_false_r.
    destruct (String.eqb (word q) opt) eqn:Hopt.
    + repeat split; try discriminate.
      intros Hne. apply String.eqb_eq in Hopt. congruence.
    + repeat split; discriminate.
  - split; [reflexivity|]. split; [reflexivity|].
    intros opt. rewrite andb_true_r.
    destruct (String.eqb answer opt) eqn:Hopt.
    + apply String.eqb_eq in Hopt. subst opt.
      apply String.eqb_neq in Hright. repeat split; try discriminate.
      * congruence.
      * exact Hright.
    + destruct (String.eqb opt (word q)) eqn:Hw.
      * apply String.eqb_eq in Hw. repeat split; try discriminate.
        congruence.
      * repeat split; discriminate.
Qed.

Lemma option_button_colours_witness :
  View.optionStyle answeredCat cat "cat" = View.Green.
Proof.
  destruct (option_button_colours answeredCat cat answeredCat_reachable
              eq_refl) as [_ Hsel].
  exact (proj1 (Hsel "cat" eq_refl)).
Defined.

End SessionInvariants.

(** ** Recording answers in the reducer *)

Section TallyFacts.
Import Reducer Handlers Invariants Samples.

Lemma correctCount_snoc (answers : list string) (qs : list Question)
    (value : string) (q : Question) :
  nth_error qs (List.length answers) = Some q ->
  correctCount (answers ++ [value]) qs
  = correctCount answers qs + (if String.eqb value (word q) then 1 else 0).
Proof.
  revert qs. induction answers as [|a answers IH]; intros qs Hq.
  - destruct qs as [|q0 qs]; [discriminate|].
    simpl in Hq. injection Hq as ->. simpl.
    destruct qs; lia.
  - destruct qs as [|q0 qs]; [discriminate|].
    simpl in Hq. simpl. rewrite (IH qs Hq). lia.
Qed.

(** [ANSWER_QUESTION] followed by [NEXT_QUESTION] keeps the tally: one
    answer per question passed, the score being the number of right ones.
    The score goes up by one for the word of the current question and stays
    for anything else; without a current question the pair throws. *)
Theorem answerAndAdvance_keeps_tally (value : string) (state : QuizState) :
  tallied state ->
  (currentQuestion state = None -> answerAndAdvance value state = None)
  /\ forall q, currentQuestion state = Some q ->
       exists state',
         answerAndAdvance value state = Some state'
         /\ tallied state'
         /\ userAnswers state' = (userAnswers state ++ [value])%list
         /\ score state'
            = score state + (if String.eqb value (word q) then 1 else 0)
         /\ currentQuestionIndex state' = currentQuestionIndex state + 1.
Proof.
  intros [Hlen Hscore]. unfold answerAndAdvance, dispatchAll. split.
  { intros Hq. simpl. now rewrite Hq. }
  intros q Hq. simpl. rewrite Hq. eexists. split; [reflexivity|]. simpl.
  assert (Hnth : nth_error (questions state)
                   (List.length (userAnswers state)) = Some q).
  { unfold currentQuestion, index in Hq.
    destruct (currentQuestionIndex state <? 0); [discriminate|].
    rewrite <- Hlen, Nat2Z.id in Hq. exact Hq. }
  split; [split; simpl|].
  - rewrite length_app. simpl. lia.
  - rewrite (correctCount_snoc _ _ _ _ Hnth), <- Hscore.
    destruct (String.eqb value (word q)); lia.
  - split; [reflexivity|]. split; [|reflexivity].
    destruct (String.eqb value (word q)); lia.
Qed.

Lemma answerAndAdvance_keeps_tally_witness :
  exists state',
    answerAndAdvance "cat" (loadedWith [cat; dog]) = Some state'
    /\ tallied state' /\ score state' = 1.
Proof.
  assert (Htally : tallied (loadedWith [cat; dog])) by (split; reflexivity).
  destruct (proj2 (answerAndAdvance_keeps_tally "cat"
                     (loadedWith [cat; dog]) Htally) cat eq_refl)
    as (state' & Hrun & Hkept & _ & Hscore & _).
  exists state'. split; [exact Hrun|]. split; [exact Hkept|exact Hscore].
Defined.

End TallyFacts.

(** ** Shuffling the options *)

Section ShuffleFacts.
Import Reducer Handlers Shuffle Countdown Samples.

Context {A : Type}.

Lemma update_length (arr : list A) (i : nat) (x : A) :
  List.length (update arr i x) = List.length arr.
Proof.
  revert i. induction arr as [|y arr IH]; intros [|i]; simpl;
    try reflexivity. now rewrite IH.
Qed.

(** Writing [x] over [a] at position [i] trades an [a] for an [x]. *)
Lemma update_perm (arr : list A) (i : nat) (a x : A) :
  nth_error arr i = Some a ->
  Permutation (a :: update arr i x) (x :: arr).
Proof.
  revert i. induction arr as [|y arr IH]; intros [|i] Hnth;
    try discriminate; simpl in *.
  - injection Hnth as ->. apply perm_swap.
  - apply perm_trans with (y :: a :: update arr i x); [apply perm_swap|].
    apply perm_trans with (y :: x :: arr); [|apply perm_swap].
    apply perm_skip. now apply IH.
Qed.

Lemma update_same (arr : list A) (i : nat) (a : A) :
  nth_error arr i = Some a -> update arr i a = arr.
Proof.
  revert i. induction arr as [|y arr IH]; intros [|i] Hnth;
    try discriminate; simpl in *.
  - now injection Hnth as ->.
  - now rewrite IH.
Qed.

Lemma nth_error_update_other (arr : list A) (i j : nat) (x : A) :
  i <> j -> nth_error (update arr i x) j = nth_error arr j.
Proof.
  revert i j. induction arr as [|y arr IH]; intros [|i] [|j] Hne;
    simpl; try reflexivity; try congruence.
  apply IH. congruence.
Qed.

Lemma swap_perm (arr : list A) (i j : nat) : Permutation (swap arr i j) arr.
Proof.
  unfold swap.
  destruct (nth_error arr i) as [x|] eqn:Hi; [|reflexivity].
  destruct (nth_error arr j) as [y|] eqn:Hj; [|reflexivity].
  destruct (Nat.eq_dec i j) as [->|Hne].
  - assert (x = y) by congruence. subst y.
    rewrite (update_same _ _ _ Hi). now rewrite (update_same _ _ _ Hi).
  - apply (Permutation_cons_inv (a := y)).
    apply perm_trans with (x :: update arr i y).
    + apply update_perm. now rewrite nth_error_update_other.
    + now apply update_perm.
Qed.

Variable draw : nat -> nat.

Lemma shuffleLoop_perm (i : nat) (arr : list A) :
  Permutation (shuffleLoop draw i arr) arr.
Proof.
  revert arr. induction i as [|i IH]; intros arr; simpl; [reflexivity|].
  apply perm_trans with (swap arr (S i) (pick draw (S i))).
  - apply IH.
  - apply swap_perm.
Qed.

(** Whatever the random draws, [shuffleArray] returns a rearrangement of
    its argument: the same elements, each as many times, and as many of
    them. *)
Theorem shuffleArray_permutation (array : list A) :
  Permutation (shuffleArray draw array) array
  /\ List.length (shuffleArray draw array) = List.length array
  /\ forall x, In x (shuffleArray draw array) <-> In x array.
Proof.
  assert (Hperm : Permutation (shuffleArray draw array) array)
    by apply shuffleLoop_perm.
  split; [exact Hperm|]. split; [exact (Permutation_length Hperm)|].
  intros x. split.
  - apply Permutation_in. exact Hperm.
  - apply Permutation_in. now apply Permutation_sym.
Qed.

End ShuffleFacts.

Section FixedOptionsFacts.
Import Reducer Handlers Shuffle Countdown Samples.

Variable draw : nat -> nat.

(** When a question with options becomes current, the options put on the
    buttons are a rearrangement of the question's own options, the
    remaining time is set to 5000, and nothing else in the session
    changes; a question without options leaves everything as it is. *)
Theorem questionEffect_fixes_a_rearrangement (c : Countdown) (q : Question) :
  currentQuestion (session c) = Some q ->
  exists c',
    questionEffect (shuffleArray draw) c = Some c'
    /\ (options q = [] -> c' = c)
    /\ (options q <> [] ->
        Permutation (fixedOptions (session c')) (options q)
        /\ count_occ string_dec (fixedOptions (session c')) (word q)
           = count_occ string_dec (options q) (word q)
        /\ remainingTime c' = fullTime
        /\ session c'
           = set_fixedOptions (fixedOptions (session c')) (session c)).
Proof.
  intros Hq. unfold questionEffect. rewrite Hq.
  destruct (options q) as [|o os] eqn:Hopts.
  - exists c. split; [reflexivity|]. split; [reflexivity|congruence].
  - eexists. split; [reflexivity|]. split; [discriminate|]. intros _.
    assert (Hperm : Permutation (shuffleArray draw (o :: os)) (o :: os))
      by apply shuffleLoop_perm.
    split; [exact Hperm|]. split; [|split; reflexivity].
    exact (proj1 (Permutation_count_occ string_dec _ _) Hperm (word q)).
Qed.

End FixedOptionsFacts.

Lemma questionEffect_fixes_a_rearrangement_witness :
  exists c',
    Countdown.questionEffect (Shuffle.shuffleArray (fun i => i + 1)%nat)
      (Countdown.mkCountdown (Samples.loadedWith [Samples.cat; Samples.dog])
         1200)
    = Some c'
    /\ (options Samples.cat <> [] ->
        Permutation (fixedOptions (Countdown.session c'))
          (options Samples.cat)).
Proof.
  destruct (questionEffect_fixes_a_rearrangement (fun i => i + 1)%nat
              (Countdown.mkCountdown
                 (Samples.loadedWith [Samples.cat; Samples.dog]) 1200)
              Samples.cat eq_refl) as (c' & Hrun & _ & Hfix).
  exists c'. split; [exact Hrun|].
  intros Hopts. exact (proj1 (Hfix Hopts)).
Defined.

(** ** Synthesis happens once *)

Section SynthesisOnceFacts.
Import Reducer Handlers Synthesis Samples.

Variable sortRandom : nat -> list string -> list string.

Lemma nth_error_mapFrom_inv {A B : Type} (f : nat -> A -> B) (l : list A)
    (i k : nat) (y : B) :
  nth_error (mapFrom i f l) k = Some y ->
  exists x, nth_error l k = Some x /\ y = f (i + k)%nat x.
Proof.
  intros Hy.
  destruct (nth_error l k) as [x|] eqn:Hx.
  - exists x. split; [reflexivity|].
    rewrite (nth_error_mapFrom f l i k x Hx) in Hy. congruence.
  - apply nth_error_None in Hx.
    assert (Hsome : nth_error (mapFrom i f l) k <> None) by congruence.
    apply nth_error_Some in Hsome. rewrite length_mapFrom in Hsome. lia.
Qed.

(** Once the synthesis effect has run, every question keeps its word,
    meaning, example and text and has options that start with its word; so
    on any session over the new list, whichever question is current, the
    effect dispatches nothing more. *)
Theorem synthesis_runs_once (state : QuizState) (q : Question) :
  currentQuestion state = Some q -> options q = [] ->
  exists state',
    afterSynthesis sortRandom state = Some state'
    /\ (forall k q', nth_error (questions state') k = Some q' ->
          exists original rest,
            nth_error (questions state) k = Some original
            /\ word q' = word original
            /\ meaning q' = meaning original
            /\ example q' = example original
            /\ question q' = question original
            /\ options q' = word q' :: rest)
    /\ forall randomAgain later,
         questions later = questions state' ->
         synthesisEffect randomAgain later = None
         /\ afterSynthesis randomAgain later = Some later.
Proof.
  intros Hq Hopts.
  exists (set_questions (synthesizeQuestions sortRandom (questions state))
            initialState).
  assert (Hshape : forall k q',
             nth_error (synthesizeQuestions sortRandom (questions state)) k
             = Some q' ->
             exists original rest,
               nth_error (questions state) k = Some original
               /\ word q' = word original
               /\ meaning q' = meaning original
               /\ example q' = example original
               /\ question q' = question original
               /\ options q' = word q' :: rest).
  { intros k q' Hk. unfold synthesizeQuestions in Hk.
    apply nth_error_mapFrom_inv in Hk as (original & Horig & ->).
    exists original. eexists. split; [exact Horig|].
    repeat split; reflexivity. }
  split.
  { unfold afterSynthesis, synthesisEffect. now rewrite Hq, Hopts. }
  split; [exact Hshape|].
  intros randomAgain later Hlater.
  assert (Hnone : synthesisEffect randomAgain later = None).
  { unfold synthesisEffect.
    destruct (currentQuestion later) as [q'|] eqn:Hq'; [|reflexivity].
    unfold currentQuestion, index in Hq'. rewrite Hlater in Hq'.
    destruct (currentQuestionIndex later <? 0); [discriminate|].
    simpl in Hq'. apply Hshape in Hq' as (_ & rest & _ & _ & _ & _ & _ & ->).
    reflexivity. }
  split; [exact Hnone|]. unfold afterSynthesis. now rewrite Hnone.
Qed.

End SynthesisOnceFacts.

Lemma synthesis_runs_once_witness :
  exists state',
    Synthesis.afterSynthesis (fun _ l => l) Samples.midQuiz = Some state'
    /\ Synthesis.synthesisEffect (fun _ l => rev l) state' = None.
Proof.
  destruct (synthesis_runs_once (fun _ l => l) Samples.midQuiz
              Samples.bareDog eq_refl eq_refl) as (state' & Hrun & _ & Honce).
  exists state'. split; [exact Hrun|].
  exact (proj1 (Honce (fun _ l => rev l) state' eq_refl)).
Defined.

(** ** What a tick does to the remaining time *)

From Stdlib Require Import Lqa.

Section CountdownBoundsFacts.
Import Reducer Handlers Countdown Samples.

Local Open Scope Q_scope.





End CountdownBoundsFacts.

(** ** More on the reveal timers *)

Section RevealScheduleFacts.
Import Reducer Handlers Reveal Invariants Samples MoreSamples.

Lemma dispatching_session (handler : QuizState -> option QuizState)
    (t t' : Timers) :
  dispatching handler t = Some t' ->
  handler (session t) = Some (session t')
  /\ loaded t' = loaded t.
Proof.
  unfold dispatching.
  destruct (handler (session t)) as [state'|]; [|discriminate].
  intros [= <-]. now rewrite commit_session, commit_loaded.
Qed.

Lemma sameRevealDeps_phase (prev next : QuizState) :
  sameRevealDeps prev next = true ->
  revealPhase prev = revealPhase next /\ isPaused prev = isPaused next.
Proof.
  unfold sameRevealDeps, revealPhase, answered, answer_eqb.
  intros H. apply andb_true_iff in H as [H Hp].
  apply andb_true_iff in H as [H _].
  apply andb_true_iff in H as [Ha Hc].
  apply eqb_prop in Hp, Hc. rewrite Hc. split; [|exact Hp].
  destruct (currentAnswer prev), (currentAnswer next);
    try discriminate; reflexivity.
Qed.

Ltac pending_cases H :=
  repeat match type of H with
         | In _ (_ ++ _) => apply in_app_or in H; destruct H as [H|H]
         | In _ (clearTimeout _ _) => apply clearTimeout_In in H as [H _]
         | In _ [_] => destruct H as [H|[]]; inversion H; subst; clear H
         end.

Lemma commit_delays (prev : QuizState) (t : Timers) :
  delaysBounded t -> delaysBounded (commit prev t).
Proof.
  unfold delaysBounded, commit, runCleanups, revealEffect, pauseEffect.
  intros Hbound id d.
  repeat match goal with
         | |- context [if ?b then _ else _] => destruct b
         end; cbn [session loaded answerTimer pending revealCleanup
                     pauseCleanup nextId];
    intros Hin; pending_cases Hin;
    try (exact (Hbound _ _ Hin)); unfold revealDelay; lia.
Qed.

Lemma revealEffect_schedules (seen : option nat) (t : Timers) :
  revealPhase (session t) = true -> showingAnswer (session t) = true ->
  isPaused (session t) = false ->
  revealEffect seen t
  = mkTimers (session t) (loaded t) (Some (nextId t))
      (clearTimeout seen (pending t) ++ [(nextId t, revealDelay)])
      (Some (nextId t)) (pauseCleanup t) (S (nextId t)).
Proof.
  unfold revealEffect, revealPhase. cbv zeta. intros -> -> ->. reflexivity.
Qed.

Lemma pauseEffect_schedules (seen : option nat) (t : Timers) :
  answered (session t) = true -> showingAnswer (session t) = true ->
  isPaused (session t) = false ->
  pauseEffect seen t
  = mkTimers (session t) (loaded t) (Some (nextId t))
      (pending t ++ [(nextId t, revealDelay)])
      (revealCleanup t) (Some (nextId t)) (S (nextId t)).
Proof.
  unfold pauseEffect. cbv zeta. intros -> -> ->. reflexivity.
Qed.

Lemma commit_scheduled (prev : QuizState) (t : Timers) :
  shownOnceAnswered (session t) ->
  (sameRevealDeps prev (session t) = true -> advanceScheduled t) ->
  advanceScheduled (commit prev t).
Proof.
  intros Hshown Hkept. unfold advanceScheduled. rewrite commit_session.
  intros Hphase Hrun.
  assert (Hans : answered (session t) = true).
  { unfold revealPhase in Hphase. now apply andb_true_iff in Hphase. }
  pose proof (Hshown Hans) as Hshowing.
  unfold commit.
  destruct (sameRevealDeps prev (session t)) eqn:Hsame.
  - rewrite (sameRevealDeps_pause _ _ Hsame). unfold runCleanups.
    rewrite Hsame, (sameRevealDeps_pause _ _ Hsame).
    exact (Hkept eq_refl Hphase Hrun).
  - rewrite (revealEffect_schedules (answerTimer t) (runCleanups prev t)
               Hphase Hshowing Hrun).
    destruct (samePauseDeps prev (session t)).
    + eexists. eexists. cbn [revealCleanup pending]. split; [reflexivity|].
      apply in_or_app. right. now left.
    + rewrite pauseEffect_schedules by assumption.
      eexists. eexists. cbn [revealCleanup pending]. split; [reflexivity|].
      apply in_or_app. left. apply in_or_app. right. now left.
Qed.

(** A handler keeps both properties when the timeouts it found are bounded
    and, should the reveal effect not re-run, the reveal timeout is there. *)
Lemma dispatching_schedule
    (handler : QuizState -> option QuizState) (t t' : Timers) :
  delaysBounded t ->
  (forall state', handler (session t) = Some state' ->
     shownOnceAnswered state'
     /\ (sameRevealDeps (session t) state' = true ->
         revealPhase state' = true -> isPaused state' = false ->
         exists id d, revealCleanup t = Some id /\ In (id, d) (pending t))) ->
  dispatching handler t = Some t' ->
  delaysBounded t' /\ advanceScheduled t'.
Proof.
  intros Hbound Hhandler. unfold dispatching.
  destruct (handler (session t)) as [state'|] eqn:Hh; [|discriminate].
  intros [= <-]. destruct (Hhandler state' eq_refl) as [Hshown Hkept].
  split.
  - apply commit_delays. exact Hbound.
  - apply commit_scheduled; [exact Hshown|].
    intros Hsame Hphase Hrun. exact (Hkept Hsame Hphase Hrun).
Qed.

Lemma schedule_kept (t : Timers) (state' : QuizState) :
  advanceScheduled t ->
  sameRevealDeps (session t) state' = true ->
  revealPhase state' = true -> isPaused state' = false ->
  exists id d, revealCleanup t = Some id /\ In (id, d) (pending t).
Proof.
  intros Hsched Hsame Hphase Hrun.
  destruct (sameRevealDeps_phase _ _ Hsame) as [Hp Hr].
  apply Hsched; congruence.
Qed.

Lemma advanced_not_revealing (state state' : QuizState) :
  quizReducer state NEXT_QUESTION = Some state' -> revealPhase state' = false.
Proof. intros [= <-]. reflexivity. Qed.

Lemma step_schedule (e : Event) (t t' : Timers) :
  wellFormed t -> delaysBounded t -> advanceScheduled t ->
  step e t = Some t' -> delaysBounded t' /\ advanceScheduled t'.
Proof.
  intros (Hown & Hquiet & Hshown & Hun) Hbound Hsched.
  assert (Hplain : forall tr state',
             Session.apply tr (session t) = Some state' ->
             shownOnceAnswered state'
             /\ (sameRevealDeps (session t) state' = true ->
                 revealPhase state' = true -> isPaused state' = false ->
                 exists id d,
                   revealCleanup t = Some id /\ In (id, d) (pending t))).
  { intros tr state' Happ. split.
    - exact (apply_shown tr _ _ Hshown Happ).
    - exact (schedule_kept t state' Hsched). }
  destruct e; cbn [step].
  - destruct (loaded t); [discriminate|].
    apply dispatching_schedule; [exact Hbound|].
    intros state'. exact (Hplain (Session.Load qs) state').
  - destruct (currentQuestion (session t)) as [q|]; [|discriminate].
    destruct (options q); [|discriminate].
    apply dispatching_schedule; [exact Hbound|].
    intros state'. exact (Hplain (Session.Synthesize qs) state').
  - destruct (currentQuestion (session t)) as [q|]; [|discriminate].
    destruct (options q); [discriminate|].
    apply dispatching_schedule; [exact Hbound|].
    intros state'. exact (Hplain (Session.FixOptions opts) state').
  - destruct (loaded t); [|discriminate].
    apply dispatching_schedule; [exact Hbound|].
    intros state' Hclick. split.
    + exact (clickOption_shown _ _ _ Hshown Hclick).
    + exact (schedule_kept t state' Hsched).
  - destruct (currentQuestion (session t)) as [q|]; [|discriminate].
    destruct (negb (isPaused (session t)) && negb (answered (session t)));
      [|discriminate].
    apply dispatching_schedule; [exact Hbound|].
    intros state'. exact (Hplain (Session.SelectAnswer (word q)) state').
  - destruct (loaded t); [|discriminate].
    destruct (quizCompleted (session t)).
    { intros [= <-]. now split. }
    apply dispatching_schedule.
    + intros id d Hin. cbn [withPending pending] in Hin.
      apply clearTimeout_In in Hin as [Hin _]. exact (Hbound _ _ Hin).
    + intros state' Hnext. split.
      * exact (apply_shown Session.Advance _ _ Hshown Hnext).
      * intros _ Hphase. apply advanced_not_revealing in Hnext. congruence.
  - destruct (loaded t); [|discriminate].
    apply dispatching_schedule; [exact Hbound|].
    intros state'. exact (Hplain Session.TogglePause state').
  - destruct (loaded t); [|discriminate].
    apply dispatching_schedule; [exact Hbound|].
    intros state'. exact (Hplain Session.SetSpeedLevel state').
  - destruct (loaded t && quizCompleted (session t)); [|discriminate].
    apply dispatching_schedule; [exact Hbound|].
    intros state'. exact (Hplain Session.Reset state').
  - destruct (0 <=? d) eqn:Hd; [|discriminate]. cbn [andb].
    destruct (forallb (fun p => d <=? snd p) (pending t)) eqn:Hall;
      [|discriminate].
    intros [= <-]. apply Z.leb_le in Hd.
    rewrite forallb_forall in Hall. split.
    + intros id d' Hin. cbn [withPending pending] in Hin.
      apply in_map_iff in Hin as ([id0 d0] & [= <- <-] & Hin).
      pose proof (Hbound _ _ Hin) as Hd0.
      pose proof (Hall _ Hin) as Hle. apply Z.leb_le in Hle.
      cbn [fst snd] in *. lia.
    + intros Hphase Hrun.
      destruct (Hsched Hphase Hrun) as (id & d0 & Hclean & Hin).
      exists id, (d0 - d). split; [exact Hclean|].
      cbn [withPending pending].
      apply in_map_iff. exists (id, d0). split; [reflexivity|exact Hin].
  - destruct (existsb (isDue id) (pending t)); [|discriminate].
    apply dispatching_schedule.
    + intros id' d Hin. cbn [withPending pending] in Hin.
      apply clearTimeout_In in Hin as [Hin _]. exact (Hbound _ _ Hin).
    + intros state' Hnext. split.
      * exact (apply_shown Session.Advance _ _ Hshown Hnext).
      * intros _ Hphase. apply advanced_not_revealing in Hnext. congruence.
Qed.

Lemma reachable_schedule (t : Timers) :
  reachable t -> delaysBounded t /\ advanceScheduled t.
Proof.
  induction 1 as [|e t t' Hreach [Hbound Hsched] Hstep].
  - split.
    + intros id d [].
    + intros Hphase. discriminate.
  - exact (step_schedule e t t' (reachable_wellFormed _ Hreach)
             Hbound Hsched Hstep).
Qed.

(** While the page is paused no timeout is pending: none can run, and any
    amount of time goes by without a change to the session. *)
Theorem paused_page_is_quiet (t : Timers) :
  reachable t -> isPaused (session t) = true ->
  pending t = []
  /\ (forall id, step (Fire id) t = None)
  /\ forall d, 0 <= d ->
       exists t', step (Elapse d) t = Some t'
         /\ session t' = session t /\ pending t' = [].
Proof.
  intros Hreach Hpaused.
  destruct (reachable_wellFormed _ Hreach) as (_ & Hquiet & _).
  pose proof (Hquiet Hpaused) as Hnil.
  split; [exact Hnil|]. split.
  - intros id. cbn [step]. now rewrite Hnil.
  - intros d Hd. cbn [step]. rewrite Hnil. cbn [forallb map].
    assert (H0 : (0 <=? d) = true) by (apply Z.leb_le; lia).
    rewrite H0. eexists. split; [reflexivity|]. split; reflexivity.
Qed.

Lemma pausedCat_reachable : reachable pausedCat.
Proof.
  apply (run_reachable
           [Upload [cat; dog]; ClickOption "cat"; ClickPause] mounted).
  - exact reachable_mounted.
  - vm_compute. reflexivity.
Defined.

Lemma paused_page_is_quiet_witness :
  isPaused (session pausedCat) = true /\ pending pausedCat = [].
Proof.
  split; [reflexivity|].
  exact (proj1 (paused_page_is_quiet pausedCat pausedCat_reachable eq_refl)).
Defined.

(** In the reveal phase of an unpaused page a timeout that advances the
    quiz is always pending, with at most 5000 units to go. *)
Theorem reveal_always_has_a_timeout (t : Timers) :
  reachable t ->
  revealPhase (session t) = true -> isPaused (session t) = false ->
  exists id d, In (id, d) (pending t) /\ 0 <= d <= 5000
    /\ revealCleanup t = Some id
    /\ forall d', d < d' -> step (Elapse d') t = None.
Proof.
  intros Hreach Hphase Hrun.
  destruct (reachable_schedule _ Hreach) as [Hbound Hsched].
  destruct (Hsched Hphase Hrun) as (id & d & Hclean & Hin).
  exists id, d. split; [exact Hin|]. split; [exact (Hbound _ _ Hin)|].
  split; [exact Hclean|].
  intros d' Hlate. cbn [step].
  destruct (forallb (fun p => d' <=? snd p) (pending t)) eqn:Hall.
  - rewrite forallb_forall in Hall. specialize (Hall _ Hin).
    apply Z.leb_le in Hall. cbn [snd] in Hall. lia.
  - now rewrite andb_false_r.
Qed.

Lemma reveal_always_has_a_timeout_witness :
  exists id d, In (id, d) (pending revealingCat) /\ 0 <= d <= 5000.
Proof.
  destruct (reveal_always_has_a_timeout revealingCat revealingCat_reachable
              eq_refl eq_refl) as (id & d & Hin & Hd & _).
  exists id, d. split; [exact Hin|exact Hd].
Defined.

(** No timeout is ever pending with more than 5000 units, or less than 0,
    to go. *)
Theorem pending_delays_bounded (t : Timers) (id : nat) (d : Z) :
  reachable t -> In (id, d) (pending t) -> 0 <= d <= 5000.
Proof.
  intros Hreach Hin.
  destruct (reachable_schedule _ Hreach) as [Hbound _].
  exact (Hbound _ _ Hin).
Qed.

Lemma pending_delays_bounded_witness : 0 <= 3000 <= 5000.
Proof.
  apply (pending_delays_bounded revealingCat 1 3000 revealingCat_reachable).
  simpl. now left.
Defined.

(** On a session that is not completed, a timeout that runs and a press of
    the skip button leave the same session: the one [NEXT_QUESTION] makes. *)
Theorem skip_and_timeout_converge (t t1 : Timers) (id : nat) :
  reachable t -> quizCompleted (session t) = false ->
  step (Fire id) t = Some t1 ->
  exists t2,
    step ClickNext t = Some t2
    /\ session t2 = session t1
    /\ handleNextQuestion (session t) = Some (session t1).
Proof.
  intros Hreach Hopen Hfire.
  destruct (reachable_wellFormed _ Hreach) as (_ & _ & _ & Hun).
  cbn [step] in Hfire.
  destruct (existsb (isDue id) (pending t)) eqn:Hdue; [|discriminate].
  assert (Hloaded : loaded t = true).
  { destruct (loaded t) eqn:Hl; [reflexivity|].
    rewrite (Hun Hl) in Hdue. discriminate. }
  apply dispatching_session in Hfire as [Hfire _].
  cbn [withPending session] in Hfire.
  cbn [step]. rewrite Hloaded, Hopen.
  unfold dispatching. cbn [withPending session].
  unfold handleNextQuestion. rewrite Hfire.
  eexists. split; [reflexivity|]. split; [|reflexivity].
  now rewrite commit_session.
Qed.

Lemma dueCat_reachable : reachable dueCat.
Proof.
  apply (run_reachable
           [Upload [cat; dog]; ClickOption "cat"; Elapse 5000] mounted).
  - exact reachable_mounted.
  - vm_compute. reflexivity.
Defined.

Lemma skip_and_timeout_converge_witness :
  exists t1 t2,
    step (Fire 1) dueCat = Some t1
    /\ step ClickNext dueCat = Some t2
    /\ session t2 = session t1.
Proof.
  destruct (step (Fire 1) dueCat) as [t1|] eqn:Hfire;
    [|vm_compute in Hfire; discriminate].
  destruct (skip_and_timeout_converge dueCat t1 1 dueCat_reachable
              eq_refl Hfire) as (t2 & Hskip & Hsame & _).
  exists t1, t2. split; [reflexivity|]. split; [exact Hskip|exact Hsame].
Defined.

End RevealScheduleFacts.

(** ** How long the countdown lasts *)

Section DoublesFacts.
Import Reducer Handlers Samples.

Lemma ticksUntilTimeout_more_fuel (fuel extra : nat) (level : Z)
    (time : float) (n : nat) :
  Doubles.ticksUntilTimeout fuel level time = Some n ->
  Doubles.ticksUntilTimeout (fuel + extra) level time = Some n.
Proof.
  revert time n. induction fuel as [|fuel IH]; intros time n; [discriminate|].
  cbn [Doubles.ticksUntilTimeout Nat.add].
  destruct (Doubles.countdownUpdater level time) as [time' timedOut].
  destruct timedOut; [trivial|].
  destruct (Doubles.ticksUntilTimeout fuel level time') as [k|] eqn:Hk;
    [|discriminate].
  now rewrite (IH time' k Hk).
Qed.

(** Left alone from the full 5000 units, in the program's own double
    arithmetic, an answering phase times out at interval callback 50 at
    speed level 1, 99 at level 2 and 149 at level 3, that is 5000, 9900 and
    14900 time-units after it began.  At level 3 the decrement is the
    double nearest to 100/3, and after 147 callbacks the remaining time is
    a little above 100, which costs one callback more. *)
Theorem answering_phase_length_in_doubles (level : Z) (fuel : nat) :
  level = 1 \/ level = 2 \/ level = 3 -> (200 <= fuel)%nat ->
  Doubles.ticksUntilTimeout fuel level Doubles.fullTime
  = Some (match level with 1 => 50%nat | 2 => 99%nat | _ => 149%nat end)
  /\ Z.of_nat (match level with 1 => 50%nat | 2 => 99%nat | _ => 149%nat end)
     * Countdown.tickPeriod
     = (match level with 1 => 5000 | 2 => 9900 | _ => 14900 end)
  /\ Doubles.decrement level
     = (match level with
        | 1 => 100%float
        | 2 => 50%float
        | _ => 0x1.0aaaaaaaaaaabp+5%float
        end)
  /\ (level = 3 ->
      PrimFloat.leb (Doubles.remainingAfter 147 3 Doubles.fullTime) 100
      = false).
Proof.
  intros Hlevel Hfuel.
  replace fuel with (200 + (fuel - 200))%nat by lia.
  destruct Hlevel as [-> | [-> | ->]];
    (split; [apply ticksUntilTimeout_more_fuel; vm_compute; reflexivity|]);
    (split; [reflexivity|]);
    (split; [vm_compute; reflexivity|]);
    intros Heq; try discriminate; vm_compute; reflexivity.
Qed.

Lemma answering_phase_length_in_doubles_witness :
  Doubles.ticksUntilTimeout 200 3 Doubles.fullTime = Some 149%nat.
Proof.
  assert (Hlevel : 3 = 1 \/ 3 = 2 \/ 3 = 3) by lia.
  assert (Hfuel : (200 <= 200)%nat) by lia.
  exact (proj1 (answering_phase_length_in_doubles 3 200 Hlevel Hfuel)).
Defined.

End DoublesFacts.

(** ** Selecting twice on the page *)

Section SelectingTwiceFacts.
Import Reducer Handlers Reveal Samples.

Lemma sameRevealDeps_refl (state : QuizState) :
  sameRevealDeps state state = true.
Proof.
  unfold sameRevealDeps, answer_eqb.
  rewrite !Bool.eqb_reflx.
  destruct (currentAnswer state); [now rewrite String.eqb_refl|reflexivity].
Qed.

(** A render that follows no change of the session runs no effect. *)
Lemma commit_unchanged (t : Timers) : commit (session t) t = t.
Proof.
  unfold commit, runCleanups, samePauseDeps.
  rewrite sameRevealDeps_refl, Bool.eqb_reflx. now destruct t.
Qed.

Lemma click_on_answered (t : Timers) (opt : string) :
  currentAnswer (session t) <> None -> loaded t = true ->
  step (ClickOption opt) t = Some t.
Proof.
  intros Hsel Hloaded. cbn [step]. rewrite Hloaded. unfold dispatching.
  rewrite (proj1 (answered_session_is_closed opt (session t) Hsel)).
  assert (Hsame : withSession (session t) t = t) by now destruct t.
  now rewrite Hsame, commit_unchanged.
Qed.

(** C8: on a page whose session has a selected answer, a click on any
    option button leaves everything as it is, selected answer, verdict,
    answers and score included; the countdown is not running, so the call
    on timeout cannot happen; and whatever else happens on the page, the
    selected answer and its verdict are never replaced: they stay as they
    are, with answers and score, or are cleared together when the quiz
    moves on or starts again. *)
Theorem second_selection_is_noop (t : Timers) :
  currentAnswer (session t) <> None -> loaded t = true ->
  (forall opt, step (ClickOption opt) t = Some t)
  /\ step CountdownTimeout t = None
  /\ Countdown.countdownRunning (session t) = false
  /\ forall e t', step e t = Some t' ->
       (currentAnswer (session t') = currentAnswer (session t)
        /\ isCorrect (session t') = isCorrect (session t)
        /\ userAnswers (session t') = userAnswers (session t)
        /\ score (session t') = score (session t))
       \/ (currentAnswer (session t') = None
           /\ isCorrect (session t') = None).
Proof.
  intros Hsel Hloaded.
  assert (Hans : answered (session t) = true).
  { unfold answered. destruct (currentAnswer (session t)); congruence. }
  split; [intros opt; now apply click_on_answered|].
  split.
  { cbn [step]. destruct (currentQuestion (session t)); [|reflexivity].
    now rewrite Hans, andb_false_r. }
  split; [exact (proj2 (answered_session_is_closed "" (session t) Hsel))|].
  intros e t' Hstep.
  destruct e; cbn [step] in Hstep; rewrite ?Hloaded in Hstep.
  - discriminate.
  - destruct (currentQuestion (session t)) as [q|]; [|discriminate].
    destruct (options q); [|discriminate].
    apply dispatching_session in Hstep as [[= <-] _]. right. now split.
  - destruct (currentQuestion (session t)) as [q|]; [|discriminate].
    destruct (options q); [discriminate|].
    apply dispatching_session in Hstep as [[= <-] _]. left.
    now repeat split.
  - pose proof (click_on_answered t opt Hsel Hloaded) as Hclick.
    cbn [step] in Hclick. rewrite Hloaded in Hclick.
    rewrite Hclick in Hstep. injection Hstep as <-.
    left. now repeat split.
  - destruct (currentQuestion (session t)); [|discriminate].
    rewrite Hans, andb_false_r in Hstep. discriminate.
  - destruct (quizCompleted (session t)).
    + injection Hstep as <-. left. now repeat split.
    + apply dispatching_session in Hstep as [[= <-] _]. right. now split.
  - apply dispatching_session in Hstep as [[= <-] _]. left.
    now repeat split.
  - apply dispatching_session in Hstep as [[= <-] _]. left.
    now repeat split.
  - destruct (quizCompleted (session t)); [|discriminate].
    apply dispatching_session in Hstep as [[= <-] _]. right. now split.
  - destruct ((0 <=? d) && forallb (fun p => d <=? snd p) (pending t));
      [|discriminate].
    injection Hstep as <-. left. now repeat split.
  - destruct (existsb (isDue id) (pending t)); [|discriminate].
    apply dispatching_session in Hstep as [[= <-] _]. right. now split.
Qed.

Lemma second_selection_is_noop_witness :
  currentAnswer (session revealingCat) <> None
  /\ step (ClickOption "dog") revealingCat = Some revealingCat
  /\ step CountdownTimeout revealingCat = None.
Proof.
  assert (Hsel : currentAnswer (session revealingCat) <> None)
    by (simpl; discriminate).
  destruct (second_selection_is_noop revealingCat Hsel eq_refl)
    as (Hclick & Htimeout & _).
  split; [exact Hsel|]. split; [exact (Hclick "dog")|exact Htimeout].
Defined.

End SelectingTwiceFacts.
